(** * physio-threat-engine: the statistical scoring engine

    A shallow embedding of [backend/model.py], [backend/models/trust_engine.py],
    [backend/models/anomaly_detector.py], [backend/data_pipeline/normalization.py]
    and the request schema of [backend/schemas.py].

    Numbers.  A Python/NumPy float is idealised as an exact rational, with
    one extra value for NaN (pandas' marker of a missing observation):
    [float := option Q], [None] being NaN.  Arithmetic propagates NaN and
    every comparison with NaN is false, as in IEEE 754.  Rounding error and
    infinities are outside the idealisation.  The one irrational operation
    of the engine, the Euclidean norm of the federated embedding, is taken
    in the real numbers. *)

From Stdlib Require Import Ascii QArith Qround Qabs Qminmax Qreals Lqa Reals Lra.
From stdpp Require Import gmap strings list.

Open Scope Q_scope.

(** ** Floats with NaN *)

Definition float : Type := option Q.

Definition nan : float := None.

Definition isna (x : float) : bool :=
  match x with None => true | Some _ => false end.

Definition notna (x : float) : bool := negb (isna x).

Definition fadd (x y : float) : float := a ← x; b ← y; Some (a + b).
Definition fsub (x y : float) : float := a ← x; b ← y; Some (a - b).
Definition fmul (x y : float) : float := a ← x; b ← y; Some (a * b).

(** Every divisor of the engine is positive (a MAD floored at 1e-6, a
    literal, a norm plus 1e-8, a positive length); a zero divisor would
    leave the rationals and reads as NaN here. *)
Definition fdiv (x y : float) : float :=
  a ← x; b ← y; if Qeq_bool b 0 then None else Some (a / b).

Definition fabs (x : float) : float := a ← x; Some (Qabs a).

Definition Qlt_bool (a b : Q) : bool := negb (Qle_bool b a).

(** [x < y] and [x > y]: false as soon as one side is NaN. *)
Definition flt (x y : float) : bool :=
  match x, y with Some a, Some b => Qlt_bool a b | _, _ => false end.

Definition fgt (x y : float) : bool := flt y x.

Definition fge (x y : float) : bool :=
  match x, y with Some a, Some b => Qle_bool b a | _, _ => false end.

(** Python's two-argument [min] and [max] keep the first argument unless the
    second compares strictly smaller (larger): a NaN first argument stays, a
    NaN second argument is dropped. *)
Definition py_min (a b : float) : float := if flt b a then b else a.
Definition py_max (a b : float) : float := if fgt b a then b else a.

(** [sum(...)]: left to right from the integer 0. *)
Definition py_sum (xs : list float) : float := fold_left fadd xs (Some 0).

(** ** Medians *)

Fixpoint insert_sorted (x : Q) (l : list Q) : list Q :=
  match l with
  | [] => [x]
  | y :: l' => if Qle_bool x y then x :: l else y :: insert_sorted x l'
  end.

Definition sort_values (l : list Q) : list Q := fold_right insert_sorted [] l.

(** The observations of a series, NaN left out. *)
Definition observations (s : list float) : list Q := omap (fun x : float => x) s.

(** [Series.dropna()]. *)
Definition dropna (s : list float) : list float := Some <$> observations s.

(** The median of NaN-free data: the middle order statistic, or the mean of
    the two middle ones; NaN for no data. *)
Definition median_of (xs : list Q) : float :=
  let s := sort_values xs in
  let n := length s in
  if Nat.eqb n 0 then nan
  else if Nat.odd n then s !! (n / 2)%nat
  else a ← s !! (n / 2 - 1)%nat; b ← s !! (n / 2)%nat; Some ((a + b) / 2).

(** [Series.median()] skips NaN. *)
Definition pd_median (s : list float) : float := median_of (observations s).

(** [np.median] does not: one NaN in the array makes the result NaN. *)
Definition np_median (arr : list float) : float :=
  if existsb isna arr then nan else median_of (observations arr).

(** [_mad] (model.py 16-20, normalization.py 20-30). *)
Definition _mad (series : list float) : float :=
  let median := pd_median series in
  let mad := np_median ((fun x => fabs (fsub x median)) <$> series) in
  if fgt mad (Some (1 # 1000000)) then mad else Some (1 # 1000000).

(** ** Records and frames *)

Inductive metric : Set :=
  | sleep_hours | resting_hr | hrv | steps | calories | weight.

Definition METRICS : list metric :=
  [sleep_hours; resting_hr; hrv; steps; calories; weight].

#[global] Instance metric_eq_dec : EqDecision metric.
Proof. solve_decision. Defined.

Definition metric_name (m : metric) : string :=
  match m with
  | sleep_hours => "sleep_hours" | resting_hr => "resting_hr" | hrv => "hrv"
  | steps => "steps" | calories => "calories" | weight => "weight"
  end.

Definition metric_index (m : metric) : nat :=
  match m with
  | sleep_hours => 0 | resting_hr => 1 | hrv => 2
  | steps => 3 | calories => 4 | weight => 5
  end.

(** One day of one user: the six metric cells, each a float or NaN. *)
Record record : Type := mk_record {
  user_id : string;
  date : string;
  value : metric -> float
}.

(** A DataFrame, row by row in date order. *)
Definition frame : Type := list record.

(** [df[m]]. *)
Definition column (m : metric) (df : frame) : list float :=
  (fun r => value r m) <$> df.

(** [rec] with cell [m] overwritten. *)
Definition set_value (m : metric) (v : float) (r : record) : record :=
  {| user_id := user_id r; date := date r;
     value := fun m' => if decide (m' = m) then v else value r m' |}.

(** ** Rolling baseline *)

(** The trailing window ending at position [i]: [s[max(0, i+1-window) : i+1]]. *)
Definition window_at (window : nat) (s : list float) (i : nat) : list float :=
  let start := (i + 1 - window)%nat in
  take (i + 1 - start) (drop start s).

(** [s.rolling(window, min_periods).median()] and [.apply(f)]: the statistic
    of the window when it holds at least [min_periods] observations, NaN
    otherwise.  The rolling median skips the NaN cells of the window;
    [apply] hands the function the whole window, NaN cells included. *)
Definition rolling_median (window min_periods : nat) (s : list float) : list float :=
  (fun i => let w := window_at window s i in
            if (min_periods <=? length (observations w))%nat
            then pd_median w else nan) <$> seq 0 (length s).

Definition rolling_apply (f : list float -> float) (window min_periods : nat)
    (s : list float) : list float :=
  (fun i => let w := window_at window s i in
            if (min_periods <=? length (observations w))%nat
            then f w else nan) <$> seq 0 (length s).

(** [s.shift(1)]: every value moves one row down, NaN enters at row 0. *)
Definition shift1 (s : list float) : list float := take (length s) (nan :: s).

(** The frame [build_robust_baseline] returns: the input rows with a
    [{m}_median] and a [{m}_mad] column per metric. *)
Record bframe : Type := mk_bframe {
  rows : frame;
  median_col : metric -> list float;
  mad_col : metric -> list float
}.

(** [build_robust_baseline] (model.py 23-34, normalization.py 33-77).
    pandas rejects [min_periods > window], that is [window < 5], before any
    column is computed; the callers all use the default 14. *)
Definition build_robust_baseline (df : frame) (window : nat) : bframe :=
  let min_periods := Nat.max 5 (window / 2) in
  {| rows := df;
     median_col := fun m => shift1 (rolling_median window min_periods (column m df));
     mad_col := fun m => shift1 (rolling_apply _mad window min_periods (column m df)) |}.

(** One row of a baseline frame as [iterrows] yields it. *)
Record brow : Type := mk_brow {
  rec : record;
  row_median : metric -> float;
  row_mad : metric -> float
}.

Definition cell (s : list float) (d : nat) : float := default nan (s !! d).

Definition iterrows (b : bframe) : list brow :=
  imap (fun d r => {| rec := r;
                      row_median := fun m => cell (median_col b m) d;
                      row_mad := fun m => cell (mad_col b m) d |}) (rows b).

(** ** Trust scores *)

Definition index_metric (n : nat) : metric :=
  match n with
  | 0%nat => sleep_hours | 1%nat => resting_hr | 2%nat => hrv
  | 3%nat => steps | 4%nat => calories | _ => weight
  end.

#[global] Instance metric_countable : Countable metric.
Proof.
  apply (inj_countable' metric_index index_metric).
  intros []; reflexivity.
Defined.

(** An entry of the flat trust list: the dictionary with keys [metric],
    [date], [score] and [drivers]. *)
Record TrustEntry : Type := mk_entry {
  t_metric : metric;
  t_date : string;
  score : float;
  drivers : list string
}.

(** The driver labels, byte for byte.  The source spells the third one with
    U+2011 NON-BREAKING HYPHEN (UTF-8 bytes E2 80 91 = 226 128 145) between
    "cross" and "signal", not with the ASCII hyphen-minus. *)
Definition driver_missing : string := "missing".
Definition driver_distribution_shift : string := "distribution shift".
Definition driver_cross_signal : string :=
  "cross" +:+ String (Ascii.ascii_of_nat 226) (String (Ascii.ascii_of_nat 128)
    (String (Ascii.ascii_of_nat 145) "signal deviation")).

(** [[o for o in METRICS if o != m]]. *)
Definition others_of (m : metric) : list metric :=
  filter (fun o => o <> m) METRICS.

(** The frame [compute_trust_scores] returns: the baseline frame with a
    [trust_{m}] column per metric. *)
Record tframe : Type := mk_tframe {
  baseline : bframe;
  trust_col : metric -> list float
}.

Section Trust.

(** The two numerical library calls of the predictor fit.
    [corr df a b] is [df[METRICS].corr().loc[a, b]], NaN where pandas has
    too little complete-case data.  [linalg_solve A b] is
    [np.linalg.solve(A, b)], [None] when it raises. *)
Variable corr : frame -> metric -> metric -> float.
Variable linalg_solve : list (list float) -> list float -> option (list float).

(** The predictor fit (model.py 57-68, trust_engine.py 72-81). *)
Definition fit_predictor_weights (df : frame) : gmap metric (gmap metric float) :=
  foldl
    (fun predictor_weights m =>
       let others := others_of m in
       let sub_corr := (fun a => (fun b => corr df a b) <$> others) <$> others in
       let target := (fun o => corr df o m) <$> others in
       match linalg_solve sub_corr target with
       | Some weights =>
           <[m := list_to_map (zip others weights)]> predictor_weights
       | None =>
           <[m := list_to_map ((fun o => (o, Some 0)) <$> others)]> predictor_weights
       end)
    ∅ METRICS.

(** [predictor_weights[m][o]].  NumPy returns as many weights as [target]
    has entries, so every key is present; a missing key (a [KeyError] in
    Python) reads as NaN here. *)
Definition weight_at (predictor_weights : gmap metric (gmap metric float))
    (m o : metric) : float :=
  default nan (predictor_weights !! m ≫= fun d => d !! o).

(** The value predicted for metric [m] from the other metrics of the day
    (model.py 94-96, trust_engine.py 103-105).  The generator
    [predictor_weights[m][o] * preds[i] for i, o in enumerate(others)]
    walks [others] and [preds] in step. *)
Definition predicted_of
    (predictor_weights : gmap metric (gmap metric float))
    (row : brow) (m : metric) : float :=
  let others := others_of m in
  let preds :=
    (fun o => if notna (value (rec row) o) then value (rec row) o else Some 0)
      <$> others in
  py_sum (zip_with (fun o p => fmul (weight_at predictor_weights m o) p)
            others preds).

(** The cross-signal residual score of a non-missing value (model.py
    98-101, trust_engine.py 106-109). *)
Definition res_score_of (df : frame)
    (predictor_weights : gmap metric (gmap metric float))
    (row : brow) (m : metric) : float :=
  let val := value (rec row) m in
  let predicted := predicted_of predictor_weights row m in
  let residual := fabs (fsub val predicted) in
  let overall_mad := _mad (dropna (column m df)) in
  py_max (Some 0)
    (fsub (Some 1)
       (py_min (fdiv residual (fmul (Some 3) overall_mad)) (Some 1))).

(** The distribution-shift score of a non-missing value (model.py 84-89,
    trust_engine.py 95-99). *)
Definition dist_score_of (row : brow) (m : metric) : float :=
  let val := value (rec row) m in
  let median := row_median row m in
  let mad := row_mad row m in
  let z :=
    if isna median || isna mad then Some 0
    else fdiv (fsub val median) (fmul (Some (14826 # 10000)) mad) in
  py_max (Some 0) (fsub (Some 1) (py_min (fdiv (fabs z) (Some 3)) (Some 1))).

(** The body of the inner loop (model.py 73-113, trust_engine.py 85-121):
    the trust entry of metric [m] on the day of [row]. *)
Definition trust_entry (df : frame)
    (predictor_weights : gmap metric (gmap metric float))
    (row : brow) (m : metric) : TrustEntry :=
  let date := date (rec row) in
  let val := value (rec row) m in
  if isna val then
    {| t_metric := m; t_date := date; score := Some 0;
       drivers := [driver_missing] |}
  else
    let drivers0 : list string := [] in
    let dist_score := dist_score_of row m in
    let drivers1 :=
      if flt dist_score (Some (6 # 10))
      then drivers0 ++ [driver_distribution_shift] else drivers0 in
    let res_score := res_score_of df predictor_weights row m in
    let drivers2 :=
      if flt res_score (Some (6 # 10))
      then drivers1 ++ [driver_cross_signal] else drivers1 in
    {| t_metric := m; t_date := date; score := fmul dist_score res_score;
       drivers := drivers2 |}.

(** [compute_trust_scores] (model.py 37-114, trust_engine.py 37-122). *)
Definition compute_trust_scores (df : frame) : tframe * list TrustEntry :=
  let df_baseline := build_robust_baseline df 14 in
  let predictor_weights := fit_predictor_weights df in
  let per_row :=
    (fun row => (fun m => trust_entry df predictor_weights row m) <$> METRICS)
      <$> iterrows df_baseline in
  ({| baseline := df_baseline;
      trust_col := fun m =>
        (fun entries => default nan (score <$> entries !! metric_index m))
          <$> per_row |},
   concat per_row).

End Trust.

(** ** Anomalies *)

(** A driver of an anomaly result: keys [metric], [value], [z_score],
    [direction]. *)
Record AnomalyDriver : Type := mk_driver {
  d_metric : metric;
  d_value : float;
  z_score : float;
  direction : string
}.

(** An anomaly result: keys [user_id], [date], [anomaly_score],
    [is_anomaly], [drivers], [narrative]. *)
Record AnomalyResult : Type := mk_result {
  a_user_id : string;
  a_date : string;
  anomaly_score : float;
  is_anomaly : bool;
  a_drivers : list AnomalyDriver;
  narrative : string
}.

(** [np.mean] and [np.max] of a non-empty array. *)
Definition np_mean (xs : list float) : float :=
  fdiv (fold_left fadd xs (Some 0)) (Some (inject_Z (Z.of_nat (length xs)))).

Definition np_max (xs : list float) : float :=
  match xs with
  | [] => nan
  | x :: xs' =>
      fold_left (fun acc y => if isna acc || isna y then nan else py_max acc y) xs' x
  end.

(** [sorted(drivers, key=lambda d: abs(d["z_score"]), reverse=True)]: a
    stable sort, largest key first. *)
Fixpoint insert_driver (d : AnomalyDriver) (l : list AnomalyDriver) : list AnomalyDriver :=
  match l with
  | [] => [d]
  | e :: l' =>
      if fgt (fabs (z_score e)) (fabs (z_score d))
      then e :: insert_driver d l' else d :: l
  end.

Definition sorted_drivers (l : list AnomalyDriver) : list AnomalyDriver :=
  fold_right insert_driver [] l.

(** [s.replace('_', ' ')]. *)
Fixpoint replace_underscores (s : string) : string :=
  match s with
  | EmptyString => EmptyString
  | String c s' =>
      String (if Ascii.eqb c "_"%char then " "%char else c) (replace_underscores s')
  end.

(** [sep.join(parts)]. *)
Fixpoint join (sep : string) (parts : list string) : string :=
  match parts with
  | [] => ""
  | [p] => p
  | p :: ps => p +:+ sep +:+ join sep ps
  end.

Section Anomalies.

(** The renderings [f"{x:.2f}"] and [f"{x:.1f}"] of a float. *)
Variable format_2f : float -> string.
Variable format_1f : float -> string.

(** The per-metric step of the inner loop (model.py 132-146,
    anomaly_detector.py 65-79): the lists [z_scores] and [drivers] after
    metric [m]. *)
Definition anomaly_step (row : brow)
    (acc : list float * list AnomalyDriver) (m : metric)
    : list float * list AnomalyDriver :=
  let '(z_scores, drivers) := acc in
  let val := value (rec row) m in
  let med := row_median row m in
  let mad := row_mad row m in
  if isna val || isna med || isna mad then (z_scores, drivers)
  else
    let z := fdiv (fsub val med) (fmul (Some (14826 # 10000)) mad) in
    let z_scores := z_scores ++ [fabs z] in
    if fgt (fabs z) (Some 2) then
      (z_scores,
       drivers ++ [{| d_metric := m; d_value := val; z_score := z;
                      direction := if fgt z (Some 0) then "high" else "low" |}])
    else (z_scores, drivers).

Definition render_narrative (date : string) (score : float)
    (drivers : list AnomalyDriver) : string :=
  if flt score (Some 1) then date +:+ ": Within normal variation."
  else if bool_decide (length drivers = 0%nat) then
    date +:+ ": Elevated deviation detected but no specific metric stands out."
  else
    let top := take 2 (sorted_drivers drivers) in
    let parts :=
      (fun d =>
         let direction :=
           if String.eqb (direction d) "high" then "above" else "below" in
         replace_underscores (metric_name (d_metric d)) +:+ " is " +:+ direction
           +:+ " baseline (z=" +:+ format_1f (z_score d) +:+ ")") <$> top in
    date +:+ ": Anomaly (score=" +:+ format_2f score +:+ "). "
      +:+ join "; " parts +:+ ".".

(** The body of the outer loop (model.py 128-172, anomaly_detector.py
    61-105): the result of one day. *)
Definition anomaly_of_row (row : brow) : AnomalyResult :=
  let date := date (rec row) in
  let '(z_scores, drivers) := foldl (anomaly_step row) ([], []) METRICS in
  let score :=
    match z_scores with
    | [] => Some 0
    | _ => fadd (np_mean z_scores) (fmul (Some (25 # 100)) (np_max z_scores))
    end in
  let is_anom := fge score (Some (15 # 10)) in
  {| a_user_id := user_id (rec row); a_date := date; anomaly_score := score;
     is_anomaly := is_anom; a_drivers := drivers;
     narrative := render_narrative date score drivers |}.

(** [compute_anomalies] (model.py 117-173, anomaly_detector.py 36-106). *)
Definition compute_anomalies (df : frame) : list AnomalyResult :=
  let df_base := build_robust_baseline df 14 in
  anomaly_of_row <$> iterrows df_base.

End Anomalies.

(** ** Attack simulation

    [simulate_attack] copies its argument and writes into the copy while it
    reads the original.  Frames are therefore objects in a store, named by
    references; [df.copy()] allocates, [perturbed.at[idx, m] = v] updates in
    place. *)

Definition loc : Type := nat.

Inductive exn : Set := ValueError | KeyError.

Inductive outcome (A : Type) : Type :=
  | Returns (a : A)
  | Raises (e : exn).
Arguments Returns {A} a.
Arguments Raises {A} e.

(** A computation over the store of frames that returns or raises. *)
Definition M (A : Type) : Type := gmap loc frame -> outcome A * gmap loc frame.

#[global] Instance M_ret : MRet M := fun A a σ => (Returns a, σ).

#[global] Instance M_bind : MBind M := fun A B k c σ =>
  match c σ with
  | (Returns a, σ') => k a σ'
  | (Raises e, σ') => (Raises e, σ')
  end.

Definition raise {A : Type} (e : exn) : M A := fun σ => (Raises e, σ).

(** Reading through a reference; a reference held by Python code is never
    dangling, the [KeyError] is the model's. *)
Definition deref (l : loc) : M frame := fun σ =>
  match σ !! l with
  | Some f => (Returns f, σ)
  | None => (Raises KeyError, σ)
  end.

(** A new object, at a reference not in use. *)
Definition alloc (f : frame) : M loc := fun σ =>
  let l := fresh (dom σ) in (Returns l, <[l := f]> σ).

(** The object behind a reference replaced. *)
Definition assign (l : loc) (f : frame) : M unit := fun σ =>
  (Returns tt, <[l := f]> σ).

(** [df.copy()]: a new frame with the same rows. *)
Definition frame_copy (l : loc) : M loc := f ← deref l; alloc f.

(** [len(df)]. *)
Definition frame_len (l : loc) : M nat := f ← deref l; mret (length f).

(** [df.at[idx, m]]: [KeyError] off the index. *)
Definition frame_at (l : loc) (idx : nat) (m : metric) : M float :=
  f ← deref l;
  match f !! idx with
  | Some r => mret (value r m)
  | None => raise KeyError
  end.

(** [df.at[idx, m] = v], in place.  The indices written are drawn from
    [range(n_rows)]; a write off the index leaves the rows as they are
    here. *)
Definition frame_set_at (l : loc) (idx : nat) (m : metric) (v : float) : M unit :=
  f ← deref l; assign l (alter (set_value m v) idx f).

(** [for x in xs: body(x)]. *)
Fixpoint for_each {A : Type} (xs : list A) (body : A -> M unit) : M unit :=
  match xs with
  | [] => mret tt
  | x :: xs' => body x ≫= fun _ => for_each xs' body
  end.

(** The random source, as the outcome of each draw: the indices sampled for
    a metric, and the uniform and the Gaussian number drawn at a cell. *)
Record rng : Type := mk_rng {
  sample_outcome : metric -> nat -> nat -> list nat;
  uniform_outcome : metric -> nat -> Q;
  normal_outcome : metric -> nat -> Q -> Q
}.

(** [random.sample(range(n_rows), n_vals)] and
    [np.random.choice(n_rows, n_vals, replace=False)]: [ValueError] when the
    sample is larger than the population. *)
Definition random_sample (g : rng) (m : metric) (n_rows n_vals : nat) : M (list nat) :=
  if (n_rows <? n_vals)%nat then raise ValueError
  else mret (sample_outcome g m n_rows n_vals).

(** [int(x)]: truncation toward zero. *)
Definition py_int (x : Q) : Z :=
  if Qle_bool 0 x then Qfloor x else Qceiling x.

(** The body of the inner loop of [simulate_attack] (model.py 217-231,
    anomaly_detector.py 124-137). *)
Definition perturb_cell (g : rng) (df perturbed : loc) (mode : string)
    (m : metric) (idx : nat) : M unit :=
  if String.eqb mode "missing" then
    frame_set_at perturbed idx m nan
  else if String.eqb mode "delay" then
    let src := Nat.max 0 (idx - 3) in
    v ← frame_at df src m;
    frame_set_at perturbed idx m v
  else if String.eqb mode "spoof" then
    val ← frame_at df idx m;
    if notna val then
      frame_set_at perturbed idx m
        (fmul val (Some ((15 # 10) + uniform_outcome g m idx)))
    else mret tt
  else if String.eqb mode "noise" then
    val ← frame_at df idx m;
    match val with
    | Some v =>
        let sigma := if negb (Qeq_bool v 0) then (1 # 10) * Qabs v else 1 # 10 in
        let noise := normal_outcome g m idx sigma in
        frame_set_at perturbed idx m (fadd val (Some noise))
    | None => mret tt
    end
  else mret tt.

(** [simulate_attack] (model.py 200-232, anomaly_detector.py 108-138).
    The product [n_rows * fraction] is taken exactly; binary64 rounds it to
    the nearest float before [int] truncates, which lifts a product within
    half an ulp below an integer onto that integer
    ([int(3 * 0.3333333333333333)] is 1). *)
Definition simulate_attack (g : rng) (df : loc) (mode : string) (fraction : Q)
    : M loc :=
  perturbed ← frame_copy df;
  n_rows ← frame_len df;
  for_each METRICS (fun m =>
    let n_vals := py_int (inject_Z (Z.of_nat n_rows) * fraction) in
    indices ← (if (0 <? n_vals)%Z
               then random_sample g m n_rows (Z.to_nat n_vals)
               else mret []);
    for_each indices (fun idx => perturb_cell g df perturbed mode m idx)) ≫= fun _ =>
  mret perturbed.

(** ** The request schema

    [SimulationRequest] (schemas.py 116-131): [mode] must match
    [^(missing|delay|spoof|noise)$] and [fraction] lie in [0, 1]; pydantic
    raises a validation error otherwise, before the endpoint body runs. *)

Record SimulationRequest : Type := mk_request {
  sr_user_id : string;
  sr_mode : string;
  sr_fraction : Q
}.

Definition mode_pattern (mode : string) : bool :=
  String.eqb mode "missing" || String.eqb mode "delay"
  || String.eqb mode "spoof" || String.eqb mode "noise".

(** Construction of a request: [None] is the validation error.  An absent
    [fraction] takes the default 0.1. *)
Definition parse_SimulationRequest (user_id mode : string) (fraction : option Q)
    : option SimulationRequest :=
  let fraction := default (1 # 10) fraction in
  if mode_pattern mode && Qle_bool 0 fraction && Qle_bool fraction 1
  then Some {| sr_user_id := user_id; sr_mode := mode; sr_fraction := fraction |}
  else None.

(** ** Federated trust *)

Open Scope R_scope.

(** [series.mean()] of NaN-free data. *)
Definition series_mean (xs : list Q) : Q :=
  (fold_left Qplus xs 0 / inject_Z (Z.of_nat (length xs)))%Q.

(** The list [means] of [_compute_embedding]. *)
Definition metric_means (df : frame) : list Q :=
  (fun m =>
     let series := observations (column m df) in
     if Nat.eqb (length series) 0 then 0%Q else series_mean series) <$> METRICS.

(** [np.dot] and [np.linalg.norm] of vectors. *)
Definition np_dot (u v : list R) : R :=
  fold_right Rplus 0 (zip_with Rmult u v).

Definition np_norm (v : list R) : R := sqrt (np_dot v v).

(** [_compute_embedding] (trust_engine.py 124-139). *)
Definition _compute_embedding (df : frame) : list R :=
  let vec := Q2R <$> metric_means df in
  let norm := np_norm vec + / 100000000 in
  (fun x => x / norm) <$> vec.

(** [compute_federated_trust_score] (trust_engine.py 141-155). *)
Definition compute_federated_trust_score (user_df global_df : frame) : R :=
  let user_embed := _compute_embedding user_df in
  let global_embed := _compute_embedding global_df in
  let dot := np_dot user_embed global_embed in
  let denom := np_norm user_embed * np_norm global_embed + / 100000000 in
  let similarity := dot / denom in
  Rmax 0 (Rmin ((similarity + 1) / 2) 1).

Close Scope R_scope.

(** ** The specification's formulas

    The closed forms the specification gives, over plain rationals, to be
    compared with what the code computes. *)

(** [clamp(x, [lo, hi])]. *)
Definition clamp (lo hi x : Q) : Q := Qmax lo (Qmin hi x).

(** [res_score = clamp(1 - residual / (3 * overall_mad), [0, 1])]. *)
Definition spec_res_score (residual overall_mad : Q) : Q :=
  clamp 0 1 (1 - residual / (3 * overall_mad)).

(** The number a present float stands for. *)
Definition num (x : float) : Q := default 0 x.

(** Row [d] of the baseline frame of [df], whose record is [r]. *)
Definition baseline_row (df : frame) (d : nat) (r : record) : brow :=
  {| rec := r;
     row_median := fun m => cell (median_col (build_robust_baseline df 14) m) d;
     row_mad := fun m => cell (mad_col (build_robust_baseline df 14) m) d |}.

(** The metrics of a day that enter its anomaly score: value, rolling
    median and rolling MAD all present. *)
Definition spec_included (row : brow) : list metric :=
  filter (fun m => notna (value (rec row) m) && notna (row_median row m)
                   && notna (row_mad row m)) METRICS.

(** [|z|] with [z = (value - median) / (1.4826 * mad)]. *)
Definition spec_abs_z (row : brow) (m : metric) : Q :=
  Qabs ((num (value (rec row) m) - num (row_median row m))
        / ((14826 # 10000) * num (row_mad row m))).

Definition spec_mean (xs : list Q) : Q :=
  fold_right Qplus 0 xs / inject_Z (Z.of_nat (length xs)).

Definition spec_max (xs : list Q) : Q :=
  match xs with
  | [] => 0
  | x :: xs' => fold_left Qmax xs' x
  end.

(** [mean(|z|) + 0.25 * max(|z|)], 0 when no metric qualified. *)
Definition spec_daily_score (zs : list Q) : Q :=
  match zs with
  | [] => 0
  | _ => spec_mean zs + (25 # 100) * spec_max zs
  end.

(** The MAD cells of a row are floored, as those of a baseline frame are. *)
Definition mad_floored (row : brow) : Prop :=
  forall m v, row_mad row m = Some v -> 1 # 1000000 <= v.

(** The federated score as a function of the two embeddings. *)
Definition score_of_embeddings (u g : list R) : R :=
  Rmax 0
    (Rmin ((np_dot u g / (np_norm u * np_norm g + / 100000000) + 1) / 2) 1)%R.

(** ** Sample data *)

(** A day on which only [steps] may be present. *)
Definition steps_day (d : string) (v : float) : record :=
  {| user_id := "u1"; date := d;
     value := fun m => match m with steps => v | _ => nan end |}.

(** Eleven days of steps: 1 .. 8, an outlier, a missing day, 5. *)
Definition steps_series : frame :=
  [steps_day "2024-01-01" (Some 1); steps_day "2024-01-02" (Some 2);
   steps_day "2024-01-03" (Some 3); steps_day "2024-01-04" (Some 4);
   steps_day "2024-01-05" (Some 5); steps_day "2024-01-06" (Some 6);
   steps_day "2024-01-07" (Some 7); steps_day "2024-01-08" (Some 8);
   steps_day "2024-01-09" (Some 100); steps_day "2024-01-10" nan;
   steps_day "2024-01-11" (Some 5)].

(** The same series with the rows from index 8 on overwritten. *)
Definition steps_series_tampered : frame :=
  take 8 steps_series ++
  [steps_day "2024-01-09" (Some 100000); steps_day "2024-01-10" (Some 7);
   steps_day "2024-01-11" nan].

(** A correlation matrix of NaN (too little complete-case data) and a solve
    that raises: the fit falls back to zero weights. *)
Definition corr_nan : frame -> metric -> metric -> float := fun _ _ _ => nan.
Definition solve_raises : list (list float) -> list float -> option (list float) :=
  fun _ _ => None.

(** A random source that samples the first indices. *)
Definition first_indices : rng :=
  {| sample_outcome := fun _ _ n_vals => seq 0 n_vals;
     uniform_outcome := fun _ _ => 1 # 2;
     normal_outcome := fun _ _ sigma => sigma |}.

(** Two one-day series with opposite means (3, 4, -, -, -, -) and
    (-3, -4, -, -, -, -). *)
Definition fed_user : frame :=
  [{| user_id := "u1"; date := "2024-01-01";
      value := fun m => match m with
                        | sleep_hours => Some 3 | resting_hr => Some 4
                        | _ => nan end |}].

Definition fed_opposite : frame :=
  [{| user_id := "cohort"; date := "2024-01-01";
      value := fun m => match m with
                        | sleep_hours => Some (-3) | resting_hr => Some (-4)
                        | _ => nan end |}].

(** ** Correlations *)

(** An entry of the correlation list: keys [metric_x], [metric_y],
    [correlation]. *)
Record CorrelationEntry : Type := mk_correlation {
  metric_x : metric;
  metric_y : metric;
  correlation : float
}.

(** [compute_correlations] (model.py 176-197); [corr] is
    [df[METRICS].corr()] as in the predictor fit.  The inner loop
    [for j in range(i + 1, len(METRICS))] walks [METRICS[i+1:]]. *)
Definition compute_correlations (corr : frame -> metric -> metric -> float)
    (df : frame) : list CorrelationEntry :=
  concat
    (imap (fun i m1 =>
             omap (fun m2 =>
                     let c := corr df m1 m2 in
                     if isna c then None
                     else Some {| metric_x := m1; metric_y := m2;
                                  correlation := c |})
               (drop (i + 1) METRICS))
       METRICS).

(** ** Security metrics *)

(** The dictionary [compute_security_metrics] returns. *)
Record SecurityMetrics : Type := mk_metrics {
  attack_surface_score : float;
  signal_integrity : float;
  anomaly_precision : float;
  anomaly_recall : float;
  mean_time_to_detect : float
}.

(** [d in dates] on a list of strings. *)
Definition date_in (d : string) (dates : list string) : bool :=
  bool_decide (d ∈ dates).

(** [{row["date"]: idx for idx, row in df.reset_index(drop=True).iterrows()}]:
    a later row with the same date overwrites the earlier one. *)
Definition date_index (df : frame) : gmap string nat :=
  foldl (fun acc p => <[date p.2 := p.1]> acc) ∅ (imap (fun i r => (i, r)) df).

(** [date_to_idx[d]]; every date looked up is the date of a row, so the
    key is present; a missing key (a [KeyError] in Python) reads as 0. *)
Definition date_idx (date_to_idx : gmap string nat) (d : string) : nat :=
  default 0%nat (date_to_idx !! d).

(** Python's [min] of a non-empty list of integers. *)
Definition list_min (xs : list nat) : nat :=
  match xs with
  | [] => 0%nat
  | x :: xs' => foldl Nat.min x xs'
  end.

Definition float_of_nat (n : nat) : float := Some (inject_Z (Z.of_nat n)).

Section Security.

Variable corr : frame -> metric -> metric -> float.
Variable linalg_solve : list (list float) -> list float -> option (list float).
Variable format_2f : float -> string.
Variable format_1f : float -> string.

(** The list [mttd_vals] (anomaly_detector.py 180-188). *)
Definition mttd_values (date_to_idx : gmap string nat)
    (true_anomaly_dates detected_dates : list string) : list float :=
  foldl
    (fun mttd_vals adate =>
       if date_in adate detected_dates then mttd_vals ++ [Some 0]
       else
         let a_idx := date_idx date_to_idx adate in
         let future_detect_indices :=
           filter (fun i => (a_idx < i)%nat)
             (date_idx date_to_idx <$> detected_dates) in
         match future_detect_indices with
         | [] => mttd_vals
         | _ => mttd_vals
                  ++ [float_of_nat (list_min future_detect_indices - a_idx)]
         end)
    [] true_anomaly_dates.

(** [compute_security_metrics] (anomaly_detector.py 140-196). *)
Definition compute_security_metrics (df : frame) : SecurityMetrics :=
  let trust_entries := snd (compute_trust_scores corr linalg_solve df) in
  let trust_vals := score <$> trust_entries in
  let mean_trust :=
    match trust_vals with [] => Some 1 | _ => np_mean trust_vals end in
  let attack_surface := fsub (Some 1) mean_trust in
  let signal_integrity := mean_trust in
  let true_anomaly_dates :=
    date <$> filter (fun row => existsb (fun m => isna (value row m)) METRICS) df in
  let det_results := compute_anomalies format_2f format_1f df in
  let detected_dates := a_date <$> filter (fun r => is_anomaly r) det_results in
  match true_anomaly_dates with
  | [] =>
      {| attack_surface_score := attack_surface;
         signal_integrity := signal_integrity;
         anomaly_precision := Some 1; anomaly_recall := Some 1;
         mean_time_to_detect := Some 0 |}
  | _ =>
      let tp :=
        length (filter (fun d => date_in d true_anomaly_dates) detected_dates) in
      let fp := (length detected_dates - tp)%nat in
      let fn :=
        length (filter (fun d => negb (date_in d detected_dates))
                  true_anomaly_dates) in
      let precision :=
        if (0 <? tp + fp)%nat
        then fdiv (float_of_nat tp) (float_of_nat (tp + fp)) else Some 0 in
      let recall :=
        if (0 <? tp + fn)%nat
        then fdiv (float_of_nat tp) (float_of_nat (tp + fn)) else Some 0 in
      let date_to_idx := date_index df in
      let mttd_vals := mttd_values date_to_idx true_anomaly_dates detected_dates in
      let mttd := match mttd_vals with [] => Some 0 | _ => np_mean mttd_vals end in
      {| attack_surface_score := attack_surface;
         signal_integrity := signal_integrity;
         anomaly_precision := precision; anomaly_recall := recall;
         mean_time_to_detect := mttd |}
  end.

End Security.

(** ** The simulator, cell by cell *)

(** The indices the simulator selects for metric [m] in a frame of
    [n_rows] rows (model.py 214-215, anomaly_detector.py 121-122). *)
Definition selected_indices (g : rng) (n_rows : nat) (fraction : Q)
    (m : metric) : list nat :=
  let n_vals := py_int (inject_Z (Z.of_nat n_rows) * fraction) in
  if (0 <? n_vals)%Z then sample_outcome g m n_rows (Z.to_nat n_vals) else [].

(** [df.at[idx, m]] of a frame value, NaN off the index. *)
Definition frame_cell (f : frame) (idx : nat) (m : metric) : float :=
  default nan ((fun r => value r m) <$> f !! idx).

(** What a selected cell holds after the simulation, read off the
    original frame: the four branches of the inner loop, a cell the branch
    leaves alone keeping its value. *)
Definition perturbed_value (g : rng) (f : frame) (mode : string)
    (m : metric) (idx : nat) : float :=
  let val := frame_cell f idx m in
  if String.eqb mode "missing" then nan
  else if String.eqb mode "delay" then frame_cell f (Nat.max 0 (idx - 3)) m
  else if String.eqb mode "spoof" then
    if notna val then fmul val (Some ((15 # 10) + uniform_outcome g m idx))
    else val
  else if String.eqb mode "noise" then
    match val with
    | Some v =>
        let sigma := if negb (Qeq_bool v 0) then (1 # 10) * Qabs v else 1 # 10 in
        fadd val (Some (normal_outcome g m idx sigma))
    | None => val
    end
  else val.

(** The random source honours the contract of [random.sample]: a sample
    that fits a frame of [n_rows] rows is made of rows of the frame. *)
Definition sample_in_range (g : rng) (n_rows : nat) : Prop :=
  forall m n_vals idx,
    (n_vals <= n_rows)%nat ->
    In idx (sample_outcome g m n_rows n_vals) -> (idx < n_rows)%nat.

(** The perturbed frame [f'] against the original [f]: the rows keep their
    number, user id and date; a cell in [done] holds its simulated value, a
    cell outside holds the original one. *)
Definition cells_perturbed (g : rng) (f : frame) (mode : string)
    (done : metric -> nat -> Prop) (f' : frame) : Prop :=
  length f' = length f
  /\ forall i r, f !! i = Some r ->
       exists r', f' !! i = Some r'
                  /\ user_id r' = user_id r /\ date r' = date r
                  /\ forall m,
                       (done m i -> value r' m = perturbed_value g f mode m i)
                       /\ (~ done m i -> value r' m = value r m).

(** The cells done once the metrics [ms] are processed. *)
Definition cells_of (sel : metric -> list nat) (ms : list metric)
    (m : metric) (i : nat) : Prop :=
  In m ms /\ In i (sel m).

(** ** More sample data *)

(** Eleven days of steps with a gap: 1 .. 8, an outlier, a missing day, and
    an ordinary 6. *)
Definition steps_series_gap : frame :=
  take 10 steps_series ++ [steps_day "2024-01-11" (Some 6)].

(** A solve that hands back its right-hand side, NaN included. *)
Definition solve_echo : list (list float) -> list float -> option (list float) :=
  fun _ b => Some b.

(** A day on which every metric is present. *)
Definition complete_day (d : string) : record :=
  {| user_id := "u1"; date := d; value := fun _ => Some 60 |}.

(** * Properties *)

(** ** Comparisons and the saturating score *)

Lemma Qlt_bool_true (a b : Q) : Qlt_bool a b = true <-> a < b.
Proof.
  unfold Qlt_bool. rewrite negb_true_iff. split.
  - intros H. apply Qnot_le_lt. intros Hle.
    apply Qle_bool_iff in Hle. congruence.
  - intros H. destruct (Qle_bool b a) eqn:E; [|reflexivity].
    apply Qle_bool_iff in E. Lqa.lra.
Qed.

Lemma Qlt_bool_false (a b : Q) : Qlt_bool a b = false <-> b <= a.
Proof.
  unfold Qlt_bool. rewrite negb_false_iff. apply Qle_bool_iff.
Qed.

Ltac float_unfold :=
  unfold py_max, py_min, fgt, fge, flt, fsub, fadd, fmul, fabs; cbn.

Lemma flt_Some (a b : Q) : flt (Some a) (Some b) = true <-> a < b.
Proof. apply Qlt_bool_true. Qed.

(** [max(0.0, 1.0 - min(x, 1.0))] is a number of [0, 1] for every
    non-negative or NaN [x]. *)
Lemma saturate_bounds (x : float) :
  (forall a, x = Some a -> 0 <= a) ->
  exists q, py_max (Some 0) (fsub (Some 1) (py_min x (Some 1))) = Some q
            /\ 0 <= q <= 1.
Proof.
  intros Hx. destruct x as [a|]; float_unfold.
  - specialize (Hx a eq_refl).
    destruct (Qlt_bool 1 a) eqn:E1; cbn.
    + destruct (Qlt_bool 0 (1 - 1)) eqn:E2.
      * apply Qlt_bool_true in E2. Lqa.lra.
      * exists 0. split; [reflexivity | Lqa.lra].
    + apply Qlt_bool_false in E1.
      destruct (Qlt_bool 0 (1 - a)) eqn:E2.
      * exists (1 - a). split; [reflexivity | Lqa.lra].
      * exists 0. split; [reflexivity | Lqa.lra].
  - exists 0. split; [reflexivity | Lqa.lra].
Qed.

(** On a number the saturating score is the clamp of [1 - x] into [0, 1]. *)
Lemma clamp_cases (x : Q) (q : Q) :
  (x <= 0 /\ q == 0) \/ (0 <= x <= 1 /\ q == x) \/ (1 <= x /\ q == 1) ->
  q == Qmax 0 (Qmin 1 x).
Proof.
  intros H.
  destruct (Q.min_spec 1 x) as [[H1 H2]|[H1 H2]];
  destruct (Q.max_spec 0 (Qmin 1 x)) as [[H3 H4]|[H3 H4]];
  revert H2 H3 H4; generalize (Qmax 0 (Qmin 1 x)); generalize (Qmin 1 x);
  intros mn mx H2 H3 H4; Lqa.lra.
Qed.

Lemma saturate_clamp (a : Q) :
  0 <= a ->
  exists q, py_max (Some 0) (fsub (Some 1) (py_min (Some a) (Some 1))) = Some q
            /\ q == Qmax 0 (Qmin 1 (1 - a)).
Proof.
  intros Ha. float_unfold.
  destruct (Qlt_bool 1 a) eqn:E1; cbn.
  - apply Qlt_bool_true in E1.
    destruct (Qlt_bool 0 (1 - 1)) eqn:E2.
    + apply Qlt_bool_true in E2. Lqa.lra.
    + exists 0. split; [reflexivity|]. apply clamp_cases. left. Lqa.lra.
  - apply Qlt_bool_false in E1.
    destruct (Qlt_bool 0 (1 - a)) eqn:E2.
    + apply Qlt_bool_true in E2. exists (1 - a). split; [reflexivity|].
      apply clamp_cases. right. left. Lqa.lra.
    + apply Qlt_bool_false in E2. exists 0. split; [reflexivity|].
      apply clamp_cases. left. Lqa.lra.
Qed.

(** ** The MAD floor *)

Lemma mad_floor (series : list float) :
  exists v, _mad series = Some v /\ 1 # 1000000 <= v.
Proof.
  unfold _mad.
  destruct (np_median _) as [q|]; float_unfold.
  - destruct (Qlt_bool (1 # 1000000) q) eqn:E.
    + apply Qlt_bool_true in E. exists q. split; [reflexivity | Lqa.lra].
    + exists (1 # 1000000). split; [reflexivity | Lqa.lra].
  - exists (1 # 1000000). split; [reflexivity | Lqa.lra].
Qed.

(** ** Cells of the baseline columns *)

Lemma rolling_median_apply (window min_periods : nat) (s : list float) :
  rolling_median window min_periods s = rolling_apply pd_median window min_periods s.
Proof. reflexivity. Qed.

Lemma length_rolling_apply f window min_periods s :
  length (rolling_apply f window min_periods s) = length s.
Proof. unfold rolling_apply. rewrite length_fmap. apply length_seq. Qed.

Lemma lookup_rolling_apply f window min_periods (s : list float) (i : nat) :
  (i < length s)%nat ->
  rolling_apply f window min_periods s !! i =
    Some (if (min_periods <=? length (observations (window_at window s i)))%nat
          then f (window_at window s i) else nan).
Proof.
  intros Hi. unfold rolling_apply.
  rewrite list_lookup_fmap, lookup_seq_lt by exact Hi. reflexivity.
Qed.

(** The cell of a shifted rolling column at row [d]: NaN at row 0 and off
    the frame, the statistic of the window ending at row [d - 1] otherwise. *)
Lemma baseline_cell f window min_periods (s : list float) (d : nat) :
  cell (shift1 (rolling_apply f window min_periods s)) d =
    match d with
    | O => nan
    | S i =>
        if decide (S i < length s)%nat then
          if (min_periods <=? length (observations (window_at window s i)))%nat
          then f (window_at window s i) else nan
        else nan
    end.
Proof.
  unfold cell, shift1. rewrite length_rolling_apply.
  destruct d as [|i].
  - destruct s; reflexivity.
  - destruct (decide (S i < length s)%nat) as [Hlt|Hge].
    + rewrite lookup_take_lt by exact Hlt. cbn.
      rewrite lookup_rolling_apply by lia. reflexivity.
    + rewrite lookup_take_ge by lia. reflexivity.
Qed.

Lemma window_at_take (window : nat) (s : list float) (i d : nat) :
  (i < d)%nat -> window_at window (take d s) i = window_at window s i.
Proof.
  intros Hi. unfold window_at.
  rewrite !take_drop_commute, take_take.
  f_equal. f_equal. lia.
Qed.

Lemma column_take (m : metric) (df : frame) (d : nat) :
  column m (take d df) = take d (column m df).
Proof. unfold column. apply fmap_take. Qed.

Lemma length_column (m : metric) (df : frame) : length (column m df) = length df.
Proof. unfold column. apply length_fmap. Qed.

(** A window ending before row [d] reads rows before [d] only. *)
Lemma window_before (window : nat) (m : metric) (df df' : frame) (i d : nat) :
  (i < d)%nat -> take d df = take d df' ->
  window_at window (column m df) i = window_at window (column m df') i.
Proof.
  intros Hi Heq.
  rewrite <- (window_at_take window (column m df) i d Hi).
  rewrite <- (window_at_take window (column m df') i d Hi).
  rewrite <- !column_take, Heq. reflexivity.
Qed.

Lemma baseline_cell_before f window min_periods (m : metric) (df df' : frame) (d : nat) :
  length df = length df' -> take d df = take d df' ->
  cell (shift1 (rolling_apply f window min_periods (column m df))) d =
  cell (shift1 (rolling_apply f window min_periods (column m df'))) d.
Proof.
  intros Hlen Heq. rewrite !baseline_cell.
  destruct d as [|i]; [reflexivity|].
  rewrite !length_column, <- Hlen.
  rewrite (window_before window m df df' i (S i)) by (lia || exact Heq).
  reflexivity.
Qed.

Lemma lookup_iterrows (b : bframe) (d : nat) :
  iterrows b !! d =
    (fun r => {| rec := r;
                 row_median := fun m => cell (median_col b m) d;
                 row_mad := fun m => cell (mad_col b m) d |}) <$> rows b !! d.
Proof. unfold iterrows. apply list_lookup_imap. Qed.

Lemma lookup_iterrows_row (df : frame) (d : nat) (r : record) :
  df !! d = Some r ->
  iterrows (build_robust_baseline df 14) !! d = Some (baseline_row df d r).
Proof.
  intros Hr. rewrite lookup_iterrows. cbn [rows build_robust_baseline].
  rewrite Hr. reflexivity.
Qed.

(** Every present cell of a rolling MAD column is at least 1e-6. *)
Lemma mad_cell_floor (window min_periods : nat) (s : list float) (d : nat) (v : Q) :
  cell (shift1 (rolling_apply _mad window min_periods s)) d = Some v ->
  1 # 1000000 <= v.
Proof.
  rewrite baseline_cell. destruct d as [|i]; [discriminate|].
  destruct (decide _); [|discriminate].
  destruct (_ <=? _)%nat; [|discriminate].
  destruct (mad_floor (window_at window s i)) as (w & -> & Hw).
  intros [= <-]. exact Hw.
Qed.

Lemma baseline_row_mad_floored (df : frame) (d : nat) (r : record) :
  mad_floored (baseline_row df d r).
Proof. intros m v. cbn. apply mad_cell_floor. Qed.

(** The baseline of the sample series: absent for the first seven days,
    then the median and MAD of the days before. *)
Example steps_median_column :
  List.map (option_map Qred) (median_col (build_robust_baseline steps_series 14) steps)
  = [nan; nan; nan; nan; nan; nan; nan;
     Some 4; Some (9 # 2); Some 5; Some 5].
Proof. vm_compute. reflexivity. Qed.

(** A missing day inside the window makes [np.median] NaN, and the MAD
    falls to the floor (last row). *)
Example steps_mad_column :
  List.map (option_map Qred) (mad_col (build_robust_baseline steps_series 14) steps)
  = [nan; nan; nan; nan; nan; nan; nan;
     Some 2; Some 2; Some 2; Some (1 # 1000000)].
Proof. vm_compute. reflexivity. Qed.

(** C4.  Every MAD value the engine computes is at least 1e-6: [_mad]
    returns a number of at least 1e-6 on every series; hence so is every
    present cell of a rolling [{metric}_mad] column, for every series,
    window, metric and row; and so is the overall-series MAD that
    normalises the cross-signal residual. *)
Theorem mad_values_at_least_epsilon (df : frame) (window : nat) (m : metric) :
  (forall series, exists v, _mad series = Some v /\ 1 # 1000000 <= v)
  /\ (forall d v, cell (mad_col (build_robust_baseline df window) m) d = Some v ->
                  1 # 1000000 <= v)
  /\ (exists v, _mad (dropna (column m df)) = Some v /\ 1 # 1000000 <= v).
Proof.
  split; [exact mad_floor|]. split.
  - intros d v. cbn. apply mad_cell_floor.
  - apply mad_floor.
Qed.

Lemma mad_values_at_least_epsilon_witness : 1 # 1000000 <= 2.
Proof.
  apply (proj1 (proj2 (mad_values_at_least_epsilon steps_series 14 steps)) 7%nat 2).
  vm_compute. reflexivity.
Defined.

(** C3.  No lookahead: if two series of the same length agree on the rows
    strictly before row [d] (the second is the first with the values at
    row [d] and later replaced arbitrarily), then for every window and
    metric the baseline pair (median, mad) attached at row [d] is the same
    in both. *)
Theorem baseline_no_lookahead (df df' : frame) (window d : nat) (m : metric) :
  length df = length df' ->
  take d df = take d df' ->
  cell (median_col (build_robust_baseline df window) m) d
    = cell (median_col (build_robust_baseline df' window) m) d
  /\ cell (mad_col (build_robust_baseline df window) m) d
    = cell (mad_col (build_robust_baseline df' window) m) d.
Proof.
  intros Hlen Heq. cbn [median_col mad_col build_robust_baseline]. split.
  - rewrite !rolling_median_apply. apply baseline_cell_before; assumption.
  - apply baseline_cell_before; assumption.
Qed.

Lemma baseline_no_lookahead_witness :
  cell (median_col (build_robust_baseline steps_series 14) steps) 8
    = cell (median_col (build_robust_baseline steps_series_tampered 14) steps) 8
  /\ cell (mad_col (build_robust_baseline steps_series 14) steps) 8
    = cell (mad_col (build_robust_baseline steps_series_tampered 14) steps) 8.
Proof.
  apply (baseline_no_lookahead steps_series steps_series_tampered 14 8 steps);
    reflexivity.
Defined.

(** ** Rows and the flat entry list *)

(** The flat list holds the chunks of the rows one after the other. *)
Lemma lookup_concat_chunks {A : Type} (L : list (list A)) (k d i : nat) :
  (forall l, In l L -> length l = k) -> (i < k)%nat ->
  concat L !! (d * k + i)%nat = L !! d ≫= fun l => l !! i.
Proof.
  revert d. induction L as [|l L IH]; intros d Hlen Hi.
  - reflexivity.
  - cbn [concat]. destruct d as [|d].
    + cbn. rewrite lookup_app_l; [reflexivity|].
      rewrite (Hlen l) by (left; reflexivity). exact Hi.
    + rewrite lookup_app_r by (rewrite (Hlen l) by (left; reflexivity); lia).
      rewrite (Hlen l) by (left; reflexivity).
      replace (S d * k + i - k)%nat with (d * k + i)%nat by lia.
      cbn. apply IH; [|exact Hi].
      intros l' Hl'. apply Hlen. right. exact Hl'.
Qed.

Lemma lookup_METRICS {A : Type} (f : metric -> A) (m : metric) :
  (f <$> METRICS) !! metric_index m = Some (f m).
Proof. destruct m; reflexivity. Qed.

Lemma fabs_third_nonneg (z : float) (a : Q) :
  fdiv (fabs z) (Some 3) = Some a -> 0 <= a.
Proof.
  destruct z as [z|]; cbn; [|discriminate].
  intros [= <-]. pose proof (Qabs_nonneg z) as Hz.
  apply Qle_shift_div_l; Lqa.lra.
Qed.

Lemma driver_labels_differ :
  driver_cross_signal <> driver_distribution_shift
  /\ driver_cross_signal <> "cross-signal deviation"%string.
Proof. split; discriminate. Qed.

Section TrustFacts.

Variable corr : frame -> metric -> metric -> float.
Variable linalg_solve : list (list float) -> list float -> option (list float).

Abbreviation entries_of df := (snd (compute_trust_scores corr linalg_solve df)).
Abbreviation weights_of df := (fit_predictor_weights corr linalg_solve df).

(** The entry of day [d] and metric [m] sits at position
    [d * 6 + metric_index m] of the flat list. *)
Lemma lookup_entries (df : frame) (d : nat) (m : metric) :
  entries_of df !! (d * 6 + metric_index m)%nat =
    (fun row => trust_entry df (weights_of df) row m)
      <$> iterrows (build_robust_baseline df 14) !! d.
Proof.
  unfold compute_trust_scores. cbn [snd].
  rewrite lookup_concat_chunks.
  - rewrite list_lookup_fmap.
    destruct (iterrows _ !! d) as [row|]; cbn; [|reflexivity].
    apply lookup_METRICS.
  - intros l Hl. apply list_elem_of_In, list_elem_of_fmap in Hl.
    destruct Hl as (row & -> & _). reflexivity.
  - destruct m; cbn; lia.
Qed.

Lemma in_entries (df : frame) (e : TrustEntry) :
  In e (entries_of df) ->
  exists row m, In row (iterrows (build_robust_baseline df 14))
                /\ e = trust_entry df (weights_of df) row m.
Proof.
  unfold compute_trust_scores. cbn [snd].
  rewrite in_concat. intros (l & Hl & He).
  apply list_elem_of_In, list_elem_of_fmap in Hl. destruct Hl as (row & -> & Hrow).
  apply list_elem_of_In, list_elem_of_fmap in He. destruct He as (m & -> & _).
  exists row, m. split; [apply list_elem_of_In; exact Hrow | reflexivity].
Qed.

Lemma dist_score_bounds (row : brow) (m : metric) :
  exists q, dist_score_of row m = Some q /\ 0 <= q <= 1.
Proof.
  unfold dist_score_of. apply saturate_bounds.
  intros a. apply fabs_third_nonneg.
Qed.

Lemma res_score_bounds (df : frame) pw (row : brow) (m : metric) :
  exists q, res_score_of df pw row m = Some q /\ 0 <= q <= 1.
Proof.
  unfold res_score_of. apply saturate_bounds.
  destruct (mad_floor (dropna (column m df))) as (M & -> & HM).
  intros a. destruct (fabs _) as [r|] eqn:Er; cbn; [|discriminate].
  destruct (Qeq_bool (3 * M) 0); [discriminate|]. intros [= <-].
  assert (0 <= r) as Hr.
  { destruct (fsub _ _) as [x|]; cbn in Er; [|discriminate].
    injection Er as <-. apply Qabs_nonneg. }
  apply Qle_shift_div_l; Lqa.lra.
Qed.

Lemma trust_entry_score_bounds (df : frame) pw (row : brow) (m : metric) :
  exists q, score (trust_entry df pw row m) = Some q /\ 0 <= q <= 1.
Proof.
  unfold trust_entry. destruct (isna (value (rec row) m)); cbn [score].
  - exists 0. split; [reflexivity | Lqa.lra].
  - destruct (dist_score_bounds row m) as (a & -> & Ha).
    destruct (res_score_bounds df pw row m) as (b & -> & Hb).
    exists (a * b). split; [reflexivity | Lqa.nra].
Qed.

(** C1.  For every input series, and whatever the correlation matrix and
    the linear solve produce, every entry of the flat trust list returned
    by [compute_trust_scores] has a score that is a number (not NaN) of
    the closed interval [0, 1]. *)
Theorem trust_scores_in_unit_interval (df : frame) (e : TrustEntry) :
  In e (entries_of df) ->
  exists q, score e = Some q /\ 0 <= q <= 1.
Proof.
  intros He. apply in_entries in He. destruct He as (row & m & _ & ->).
  apply trust_entry_score_bounds.
Qed.

(** C2.  For every series, day [d] and metric [m]: when the value of [m]
    is missing on day [d], the flat trust list holds for that (metric,
    day), at position [6 d + index of m], the entry with score exactly 0
    and drivers exactly ["missing"].  The entry is the same whatever the
    baseline and the predictor weights are: neither the
    distribution-shift nor the cross-signal factor enters it. *)
Theorem missing_value_scores_zero (df : frame) (d : nat) (r : record) (m : metric) :
  df !! d = Some r ->
  value r m = nan ->
  entries_of df !! (d * 6 + metric_index m)%nat =
    Some {| t_metric := m; t_date := date r; score := Some 0;
            drivers := ["missing"] |}.
Proof.
  intros Hr Hv. rewrite lookup_entries, lookup_iterrows.
  cbn [rows build_robust_baseline]. rewrite Hr. cbn.
  unfold trust_entry. cbn [rec]. rewrite Hv. reflexivity.
Qed.

Lemma drivers_of_present (df : frame) pw (row : brow) (m : metric) (s : string) :
  isna (value (rec row) m) = false ->
  s <> driver_distribution_shift ->
  In s (drivers (trust_entry df pw row m)) <->
  s = driver_cross_signal /\ flt (res_score_of df pw row m) (Some (6 # 10)) = true.
Proof.
  intros Hv Hs. unfold trust_entry. rewrite Hv. cbn [drivers].
  destruct (flt (dist_score_of row m) _), (flt (res_score_of df pw row m) _);
    cbn; intuition congruence.
Qed.

Lemma res_score_formula (df : frame) pw (row : brow) (m : metric) (v p : Q) :
  value (rec row) m = Some v ->
  predicted_of pw row m = Some p ->
  exists M rs, _mad (dropna (column m df)) = Some M
               /\ res_score_of df pw row m = Some rs
               /\ rs == spec_res_score (Qabs (v - p)) M.
Proof.
  intros Hv Hp. unfold res_score_of. rewrite Hv, Hp.
  destruct (mad_floor (dropna (column m df))) as (M & -> & HM).
  exists M. cbn [fsub fabs fmul fdiv mbind option_bind].
  destruct (Qeq_bool (3 * M) 0) eqn:E.
  { apply Qeq_bool_iff in E. Lqa.lra. }
  destruct (saturate_clamp (Qabs (v - p) / (3 * M))) as (q & Hq & Hc).
  { apply Qle_shift_div_l; [Lqa.lra|]. pose proof (Qabs_nonneg (v - p)). Lqa.lra. }
  exists q. split; [reflexivity|]. split; [exact Hq | exact Hc].
Qed.

(** C8, amended.  For every non-missing value, the drivers list of that
    (metric, day) contains the label the code appends -- "cross", U+2011
    NON-BREAKING HYPHEN, "signal deviation" -- if and only if
    [res_score < 0.6].  [res_score] is a number of [0, 1]; whenever the
    predicted value is a number it equals
    [clamp(1 - residual / (3 * overall_mad), [0, 1])] with
    [residual = |value - predicted|] and [overall_mad] the MAD of the
    metric's whole column (the same for every day, not rolling). *)
Theorem cross_signal_driver_iff (df : frame) (d : nat) (r : record) (m : metric) (v : Q) :
  df !! d = Some r ->
  value r m = Some v ->
  exists e rs,
    entries_of df !! (d * 6 + metric_index m)%nat = Some e
    /\ res_score_of df (weights_of df) (baseline_row df d r) m = Some rs
    /\ (In driver_cross_signal (drivers e) <-> rs < 6 # 10)
    /\ (forall p, predicted_of (weights_of df) (baseline_row df d r) m = Some p ->
          exists M, _mad (dropna (column m df)) = Some M
                    /\ rs == spec_res_score (Qabs (v - p)) M).
Proof.
  intros Hr Hv.
  destruct (res_score_bounds df (weights_of df) (baseline_row df d r) m)
    as (rs & Hrs & _).
  exists (trust_entry df (weights_of df) (baseline_row df d r) m), rs.
  split; [|split; [exact Hrs|split]].
  - rewrite lookup_entries, (lookup_iterrows_row df d r Hr). reflexivity.
  - rewrite drivers_of_present.
    + rewrite Hrs, flt_Some. intuition.
    + cbn. rewrite Hv. reflexivity.
    + apply driver_labels_differ.
  - intros p Hp.
    destruct (res_score_formula df (weights_of df) (baseline_row df d r) m v p)
      as (M & rs' & HM & Hrs' & Heq); [exact Hv | exact Hp |].
    exists M. split; [exact HM|]. rewrite Hrs in Hrs'. injection Hrs' as ->.
    exact Heq.
Qed.

End TrustFacts.

(** The trust entries of the outlier day and of the missing day of the
    sample series (zero predictor weights). *)
Example steps_outlier_entry :
  snd (compute_trust_scores corr_nan solve_raises steps_series) !! 51%nat
  = Some {| t_metric := steps; t_date := "2024-01-09"; score := Some 0;
            drivers := [driver_distribution_shift; driver_cross_signal] |}.
Proof. vm_compute. reflexivity. Qed.

Lemma trust_scores_in_unit_interval_witness :
  exists q,
    score (trust_entry steps_series
             (fit_predictor_weights corr_nan solve_raises steps_series)
             (baseline_row steps_series 8 (steps_day "2024-01-09" (Some 100)))
             steps) = Some q
    /\ 0 <= q <= 1.
Proof.
  apply (trust_scores_in_unit_interval corr_nan solve_raises steps_series).
  vm_compute. do 51 right. left. reflexivity.
Defined.

Lemma missing_value_scores_zero_witness :
  snd (compute_trust_scores corr_nan solve_raises steps_series) !! 57%nat
  = Some {| t_metric := steps; t_date := "2024-01-10"; score := Some 0;
            drivers := ["missing"] |}.
Proof.
  apply (missing_value_scores_zero corr_nan solve_raises steps_series 9
           (steps_day "2024-01-10" nan) steps); reflexivity.
Defined.

Lemma cross_signal_driver_iff_witness :
  exists e rs,
    snd (compute_trust_scores corr_nan solve_raises steps_series) !! 51%nat = Some e
    /\ res_score_of steps_series
         (fit_predictor_weights corr_nan solve_raises steps_series)
         (baseline_row steps_series 8 (steps_day "2024-01-09" (Some 100)))
         steps = Some rs
    /\ (In driver_cross_signal (drivers e) <-> rs < 6 # 10)
    /\ (forall p,
          predicted_of (fit_predictor_weights corr_nan solve_raises steps_series)
            (baseline_row steps_series 8 (steps_day "2024-01-09" (Some 100)))
            steps = Some p ->
          exists M, _mad (dropna (column steps steps_series)) = Some M
                    /\ rs == spec_res_score (Qabs (100 - p)) M).
Proof.
  apply (cross_signal_driver_iff corr_nan solve_raises steps_series 8
           (steps_day "2024-01-09" (Some 100)) steps 100); reflexivity.
Defined.

(** C8 as stated fails: on the outlier day of the sample series the value
    is present and [res_score = 0 < 0.6], yet the drivers list does not
    contain the string "cross-signal deviation" spelled with the ASCII
    hyphen. *)
Lemma cross_signal_ascii_label_counterexample :
  exists e rs,
    snd (compute_trust_scores corr_nan solve_raises steps_series) !! 51%nat = Some e
    /\ value (steps_day "2024-01-09" (Some 100)) steps = Some 100
    /\ res_score_of steps_series
         (fit_predictor_weights corr_nan solve_raises steps_series)
         (baseline_row steps_series 8 (steps_day "2024-01-09" (Some 100)))
         steps = Some rs
    /\ ~ (In "cross-signal deviation"%string (drivers e) <-> rs < 6 # 10).
Proof.
  exists {| t_metric := steps; t_date := "2024-01-09"; score := Some 0;
            drivers := [driver_distribution_shift; driver_cross_signal] |}, 0.
  split; [vm_compute; reflexivity|].
  split; [reflexivity|].
  split; [vm_compute; reflexivity|].
  intros [_ H].
  assert (In "cross-signal deviation"%string
            [driver_distribution_shift; driver_cross_signal]) as Hin
    by (apply H; reflexivity).
  destruct Hin as [Hin | [Hin | []]]; discriminate Hin.
Qed.

(** ** The daily anomaly score *)

Lemma fold_fadd_numbers (qs : list Q) (a : Q) :
  fold_left fadd (Some <$> qs) (Some a) = Some (fold_left Qplus qs a).
Proof.
  revert a. induction qs as [|q qs IH]; intros a; [reflexivity|].
  cbn. apply IH.
Qed.

Lemma fold_left_Qplus (qs : list Q) (a : Q) :
  fold_left Qplus qs a == a + fold_right Qplus 0 qs.
Proof.
  revert a. induction qs as [|q qs IH]; intros a; cbn.
  - Lqa.lra.
  - rewrite IH. Lqa.lra.
Qed.

Lemma np_mean_numbers (qs : list Q) :
  qs <> [] ->
  exists s, np_mean (Some <$> qs) = Some s /\ s == spec_mean qs.
Proof.
  intros Hne. unfold np_mean. rewrite fold_fadd_numbers, length_fmap.
  cbn [fdiv mbind option_bind].
  destruct (Qeq_bool (inject_Z (Z.of_nat (length qs))) 0) eqn:E.
  - apply Qeq_bool_iff in E. unfold Qeq in E. cbn in E.
    destruct qs; [congruence | cbn in E; lia].
  - eexists. split; [reflexivity|]. unfold spec_mean.
    rewrite fold_left_Qplus. apply Qdiv_comp; [Lqa.lra | reflexivity].
Qed.

Lemma np_max_step (q a y : Q) :
  q == a ->
  exists q', (if isna (Some q) || isna (Some y) then nan
              else py_max (Some q) (Some y)) = Some q'
             /\ q' == Qmax a y.
Proof.
  intros Hq. float_unfold.
  destruct (Qlt_bool q y) eqn:E; eexists; (split; [reflexivity|]).
  - apply Qlt_bool_true in E.
    destruct (Q.max_spec a y) as [[H1 H2]|[H1 H2]]; rewrite H2; Lqa.lra.
  - apply Qlt_bool_false in E.
    destruct (Q.max_spec a y) as [[H1 H2]|[H1 H2]]; rewrite H2; Lqa.lra.
Qed.

Lemma fold_left_Qmax_compat (qs : list Q) (a b : Q) :
  a == b -> fold_left Qmax qs a == fold_left Qmax qs b.
Proof.
  revert a b. induction qs as [|q qs IH]; intros a b Hab; cbn; [exact Hab|].
  apply IH. rewrite Hab. reflexivity.
Qed.

Lemma np_max_fold (qs : list Q) (q a : Q) :
  q == a ->
  exists mx,
    fold_left (fun acc y => if isna acc || isna y then nan else py_max acc y)
      (Some <$> qs) (Some q) = Some mx
    /\ mx == fold_left Qmax qs a.
Proof.
  revert q a. induction qs as [|y qs IH]; intros q a Hq.
  - exists q. split; [reflexivity | exact Hq].
  - cbn [fmap list_fmap fold_left].
    destruct (np_max_step q a y Hq) as (q' & -> & Hq').
    apply IH. exact Hq'.
Qed.

Lemma np_max_numbers (qs : list Q) :
  qs <> [] ->
  exists mx, np_max (Some <$> qs) = Some mx /\ mx == spec_max qs.
Proof.
  destruct qs as [|q qs]; [congruence|]. intros _.
  cbn [fmap list_fmap np_max spec_max]. apply np_max_fold. reflexivity.
Qed.

Section AnomalyFacts.

Variable format_2f : float -> string.
Variable format_1f : float -> string.

Lemma anomaly_step_z (row : brow) (acc : list float * list AnomalyDriver) (m : metric) :
  mad_floored row ->
  fst (anomaly_step row acc m) =
    fst acc ++
    (if notna (value (rec row) m) && notna (row_median row m)
        && notna (row_mad row m)
     then [Some (spec_abs_z row m)] else []).
Proof.
  intros Hmad. destruct acc as [zs ds]. unfold anomaly_step, spec_abs_z.
  specialize (Hmad m).
  destruct (value (rec row) m) as [v|], (row_median row m) as [md|],
    (row_mad row m) as [a|];
    cbn [isna notna negb orb andb fst]; rewrite ?app_nil_r; try reflexivity.
  specialize (Hmad a eq_refl).
  cbn [fsub fmul fdiv fabs mbind option_bind num default option_ret from_option].
  destruct (Qeq_bool ((14826 # 10000) * a) 0) eqn:E.
  { apply Qeq_bool_iff in E. Lqa.lra. }
  destruct (fgt _ _); reflexivity.
Qed.

Lemma anomaly_fold_z (row : brow) (ms : list metric)
    (acc : list float * list AnomalyDriver) :
  mad_floored row ->
  fst (foldl (anomaly_step row) acc ms) =
    fst acc ++
    (Some <$> (spec_abs_z row <$>
       filter (fun m => notna (value (rec row) m) && notna (row_median row m)
                        && notna (row_mad row m)) ms)).
Proof.
  intros Hmad. revert acc. induction ms as [|m ms IH]; intros acc.
  - cbn. rewrite app_nil_r. reflexivity.
  - cbn [foldl]. rewrite IH, anomaly_step_z by exact Hmad.
    rewrite filter_cons.
    destruct (notna (value (rec row) m) && notna (row_median row m)
              && notna (row_mad row m)) eqn:E.
    + rewrite decide_True by exact I.
      rewrite <- app_assoc. reflexivity.
    + rewrite decide_False by (intros []).
      rewrite app_nil_r. reflexivity.
Qed.

Lemma anomaly_of_row_score (row : brow) :
  mad_floored row ->
  exists s, anomaly_score (anomaly_of_row format_2f format_1f row) = Some s
            /\ s == spec_daily_score (spec_abs_z row <$> spec_included row)
            /\ (is_anomaly (anomaly_of_row format_2f format_1f row) = true
                <-> 15 # 10 <= s).
Proof.
  intros Hmad. unfold anomaly_of_row.
  pose proof (anomaly_fold_z row METRICS ([], []) Hmad) as Hz.
  destruct (foldl (anomaly_step row) ([], []) METRICS) as [zs ds].
  cbn [fst app] in Hz. fold (spec_included row) in Hz. subst zs.
  cbn [anomaly_score is_anomaly].
  destruct (spec_abs_z row <$> spec_included row) as [|q qs] eqn:Eqs.
  - exists 0. cbn. split; [reflexivity|]. split; [reflexivity|].
    split; [discriminate | intros H; Lqa.lra].
  - destruct (np_mean_numbers (q :: qs)) as (mn & Hmn & Hmn'); [discriminate|].
    destruct (np_max_numbers (q :: qs)) as (mx & Hmx & Hmx'); [discriminate|].
    cbn [fmap list_fmap] in Hmn, Hmx |- *. rewrite Hmn, Hmx.
    exists (mn + (25 # 100) * mx). split; [reflexivity|]. split.
    + unfold spec_daily_score. rewrite Hmn', Hmx'. reflexivity.
    + cbn. apply Qle_bool_iff.
Qed.

(** C6.  In [compute_anomalies], for every series and day [d]: the
    metrics that enter the day's z-score set are exactly those whose
    value, rolling median and rolling MAD are all present (the others are
    left out, nothing is substituted for them); the daily anomaly score
    is the number [mean(|z|) + 0.25 * max(|z|)] over those metrics, 0
    when there is none; and [is_anomaly] holds exactly when the score is
    at least 1.5. *)
Theorem anomaly_score_over_included (df : frame) (d : nat) (r : record) :
  df !! d = Some r ->
  exists res s,
    compute_anomalies format_2f format_1f df !! d = Some res
    /\ anomaly_score res = Some s
    /\ s == spec_daily_score
              (spec_abs_z (baseline_row df d r)
                 <$> spec_included (baseline_row df d r))
    /\ (is_anomaly res = true <-> 15 # 10 <= s).
Proof.
  intros Hr.
  destruct (anomaly_of_row_score (baseline_row df d r)) as (s & Hs & Heq & Hanom).
  { apply baseline_row_mad_floored. }
  exists (anomaly_of_row format_2f format_1f (baseline_row df d r)), s.
  split; [|split; [exact Hs | split; [exact Heq | exact Hanom]]].
  unfold compute_anomalies.
  rewrite list_lookup_fmap, (lookup_iterrows_row df d r Hr). reflexivity.
Qed.

End AnomalyFacts.

(** The anomaly results of the sample series around the outlier day. *)
Example steps_anomaly_flags :
  is_anomaly <$> compute_anomalies (fun _ => ""%string) (fun _ => ""%string) steps_series
  = [false; false; false; false; false; false; false; true; true; false; false].
Proof. vm_compute. reflexivity. Qed.

Lemma anomaly_score_over_included_witness :
  exists res s,
    compute_anomalies (fun _ => ""%string) (fun _ => ""%string) steps_series !! 8%nat
      = Some res
    /\ anomaly_score res = Some s
    /\ s == spec_daily_score
              (spec_abs_z (baseline_row steps_series 8
                             (steps_day "2024-01-09" (Some 100)))
                 <$> spec_included (baseline_row steps_series 8
                                      (steps_day "2024-01-09" (Some 100))))
    /\ (is_anomaly res = true <-> 15 # 10 <= s).
Proof.
  apply (anomaly_score_over_included (fun _ => ""%string) (fun _ => ""%string)
           steps_series 8 (steps_day "2024-01-09" (Some 100))).
  reflexivity.
Defined.

(** ** The simulator on the store *)

Lemma bind_returns {A B : Type} (c : M A) (k : A -> M B) σ a σ' :
  c σ = (Returns a, σ') -> (c ≫= k) σ = k a σ'.
Proof. intros H. unfold mbind, M_bind. rewrite H. reflexivity. Qed.

Lemma bind_raises {A B : Type} (c : M A) (k : A -> M B) σ e σ' :
  c σ = (Raises e, σ') -> (c ≫= k) σ = (Raises e, σ').
Proof. intros H. unfold mbind, M_bind. rewrite H. reflexivity. Qed.

Lemma deref_returns (l : loc) (f : frame) (σ : gmap loc frame) :
  σ !! l = Some f -> deref l σ = (Returns f, σ).
Proof. intros H. unfold deref. rewrite H. reflexivity. Qed.

Lemma frame_copy_returns (l : loc) (f : frame) (σ : gmap loc frame) :
  σ !! l = Some f ->
  frame_copy l σ = (Returns (fresh (dom σ)), <[fresh (dom σ) := f]> σ).
Proof.
  intros H. unfold frame_copy.
  rewrite (bind_returns _ _ σ f σ) by (apply deref_returns; exact H).
  reflexivity.
Qed.

Lemma frame_len_returns (l : loc) (f : frame) (σ : gmap loc frame) :
  σ !! l = Some f -> frame_len l σ = (Returns (length f), σ).
Proof.
  intros H. unfold frame_len.
  rewrite (bind_returns _ _ σ f σ) by (apply deref_returns; exact H).
  reflexivity.
Qed.

Lemma fresh_not_used (l : loc) (f : frame) (σ : gmap loc frame) :
  σ !! l = Some f -> fresh (dom σ) <> l /\ σ !! fresh (dom σ) = None.
Proof.
  intros H. pose proof (is_fresh (dom σ)) as Hf. split.
  - intros Heq. apply Hf. rewrite Heq. apply elem_of_dom. eauto.
  - apply not_elem_of_dom. exact Hf.
Qed.

(** A loop whose body does nothing does nothing. *)
Lemma for_each_skip {A : Type} (xs : list A) (body : A -> M unit) σ :
  (forall x σ', body x σ' = (Returns tt, σ')) ->
  for_each xs body σ = (Returns tt, σ).
Proof.
  intros Hbody. induction xs as [|x xs IH]; [reflexivity|].
  cbn [for_each]. rewrite (bind_returns _ _ σ tt σ) by apply Hbody. exact IH.
Qed.

Lemma mode_pattern_false (mode : string) :
  mode_pattern mode = false ->
  String.eqb mode "missing" = false /\ String.eqb mode "delay" = false
  /\ String.eqb mode "spoof" = false /\ String.eqb mode "noise" = false.
Proof.
  unfold mode_pattern. rewrite !orb_false_iff. tauto.
Qed.

Lemma mode_pattern_true (mode : string) :
  mode_pattern mode = true <->
  mode = "missing"%string \/ mode = "delay"%string
  \/ mode = "spoof"%string \/ mode = "noise"%string.
Proof.
  unfold mode_pattern. rewrite !orb_true_iff, !String.eqb_eq. tauto.
Qed.

Lemma perturb_cell_unknown_mode g df perturbed mode m idx σ :
  mode_pattern mode = false ->
  perturb_cell g df perturbed mode m idx σ = (Returns tt, σ).
Proof.
  intros H. apply mode_pattern_false in H. destruct H as (H1 & H2 & H3 & H4).
  unfold perturb_cell. rewrite H1, H2, H3, H4. reflexivity.
Qed.

Lemma py_int_zero (x : Q) : py_int (x * 0) = 0%Z.
Proof.
  unfold py_int.
  assert (x * 0 == 0) as E by Lqa.lra.
  rewrite (Qleb_comp 0 0 (reflexivity _) _ _ E).
  rewrite (Qfloor_comp _ _ E). reflexivity.
Qed.

Lemma inject_nat_nonneg (n : nat) : 0 <= inject_Z (Z.of_nat n).
Proof. unfold Qle. cbn. lia. Qed.

(** A fraction of at most 1 never asks for more indices than rows. *)
Lemma py_int_fraction_le (n : nat) (fraction : Q) :
  fraction <= 1 ->
  (py_int (inject_Z (Z.of_nat n) * fraction) <= Z.of_nat n)%Z.
Proof.
  intros Hfr. pose proof (inject_nat_nonneg n) as Hn.
  unfold py_int. destruct (Qle_bool 0 _) eqn:E.
  - rewrite <- (Qfloor_Z (Z.of_nat n)) at 2.
    apply Qfloor_resp_le. Lqa.nra.
  - assert (inject_Z (Z.of_nat n) * fraction <= 0) as Hneg.
    { destruct (Qlt_le_dec 0 (inject_Z (Z.of_nat n) * fraction)) as [H|H];
        [|exact H].
      apply Qlt_le_weak, Qle_bool_iff in H. congruence. }
    apply Qceiling_resp_le in Hneg. change (Qceiling 0) with 0%Z in Hneg. lia.
Qed.

(** C5, amended.  A mode string outside "missing", "delay", "spoof",
    "noise" is rejected where the request is parsed: [SimulationRequest]
    raises a validation error for every user id and fraction.
    [simulate_attack] itself does not check its mode: called directly with
    such a mode and a fraction of at most 1, for every series and random
    source, it raises nothing and returns a fresh copy of the series,
    unchanged. *)
Theorem unknown_mode_rejected_by_schema_only
    (g : rng) (σ : gmap loc frame) (df : loc) (f : frame)
    (user_id mode : string) (fraction : Q) :
  mode_pattern mode = false ->
  σ !! df = Some f ->
  fraction <= 1 ->
  (forall fr, parse_SimulationRequest user_id mode fr = None)
  /\ simulate_attack g df mode fraction σ
     = (Returns (fresh (dom σ)), <[fresh (dom σ) := f]> σ).
Proof.
  intros Hmode Hdf Hfr.
  pose proof (py_int_fraction_le (length f) fraction Hfr) as Hn. split.
  - intros fr. unfold parse_SimulationRequest. rewrite Hmode. reflexivity.
  - destruct (fresh_not_used df f σ Hdf) as [Hne Hfresh].
    unfold simulate_attack.
    rewrite (bind_returns _ _ _ _ _ (frame_copy_returns df f σ Hdf)).
    assert (<[fresh (dom σ) := f]> σ !! df = Some f) as Hdf'
      by (rewrite lookup_insert_ne by exact Hne; exact Hdf).
    rewrite (bind_returns _ _ _ _ _ (frame_len_returns df f _ Hdf')).
    rewrite (bind_returns _ _ _ tt (<[fresh (dom σ) := f]> σ)); [reflexivity|].
    apply for_each_skip. intros m σ'.
    set (n_vals := py_int _) in *.
    destruct (0 <? n_vals)%Z eqn:E.
    + unfold random_sample.
      replace (length f <? Z.to_nat n_vals)%nat with false
        by (symmetry; apply Nat.ltb_ge; lia).
      rewrite (bind_returns _ _ σ' (sample_outcome g m (length f) (Z.to_nat n_vals)) σ')
        by reflexivity.
      apply for_each_skip. intros idx σ''.
      apply perturb_cell_unknown_mode. exact Hmode.
    + rewrite (bind_returns _ _ σ' [] σ') by reflexivity. reflexivity.
Qed.

(** C9.  For every series, random source and store: [simulate_attack]
    with [mode = "missing"] and [fraction = 0] returns a reference to a new
    frame whose rows are identical to the input's, and the input frame
    (like every other frame of the store) is left as it was. *)
Theorem simulate_missing_zero_identity
    (g : rng) (σ : gmap loc frame) (df : loc) (f : frame) :
  σ !! df = Some f ->
  exists perturbed σ',
    simulate_attack g df "missing" 0 σ = (Returns perturbed, σ')
    /\ σ' !! perturbed = Some f
    /\ σ' !! df = Some f
    /\ perturbed <> df
    /\ forall l, l <> perturbed -> σ' !! l = σ !! l.
Proof.
  intros Hdf. destruct (fresh_not_used df f σ Hdf) as [Hne Hfresh].
  exists (fresh (dom σ)), (<[fresh (dom σ) := f]> σ).
  assert (<[fresh (dom σ) := f]> σ !! df = Some f) as Hdf'
    by (rewrite lookup_insert_ne by exact Hne; exact Hdf).
  split; [|split; [apply lookup_insert_eq | split; [exact Hdf' | split; [exact Hne|]]]].
  - unfold simulate_attack.
    rewrite (bind_returns _ _ _ _ _ (frame_copy_returns df f σ Hdf)).
    rewrite (bind_returns _ _ _ _ _ (frame_len_returns df f _ Hdf')).
    rewrite (bind_returns _ _ _ tt (<[fresh (dom σ) := f]> σ)); [reflexivity|].
    apply for_each_skip. intros m σ'.
    rewrite py_int_zero. cbn [Z.ltb Z.compare].
    rewrite (bind_returns _ _ σ' [] σ') by reflexivity. reflexivity.
  - intros l Hl. apply lookup_insert_ne. congruence.
Qed.

(** The four modes on the first two days of the sample series, every cell
    selected ([fraction = 1]); reference 0 is the input, 1 the copy. *)
Example simulate_missing_all :
  let '(r, σ) := simulate_attack first_indices 0%nat "missing" 1
                   {[ 0%nat := take 2 steps_series ]} in
  (r, column steps <$> σ !! 0%nat, column steps <$> σ !! 1%nat)
  = (Returns 1%nat, Some [Some 1; Some 2], Some [nan; nan]).
Proof. vm_compute. reflexivity. Qed.

Example simulate_too_many :
  fst (simulate_attack first_indices 0%nat "missing" (3 # 2)
         {[ 0%nat := take 2 steps_series ]})
  = Raises ValueError.
Proof. vm_compute. reflexivity. Qed.

Lemma unknown_mode_rejected_by_schema_only_witness :
  (forall fr, parse_SimulationRequest "u1" "typo" fr = None)
  /\ simulate_attack first_indices 0%nat "typo" (1 # 2)
       {[ 0%nat := steps_series ]}
     = (Returns (fresh (dom ({[ 0%nat := steps_series ]} : gmap loc frame))),
        <[fresh (dom ({[ 0%nat := steps_series ]} : gmap loc frame))
            := steps_series]> {[ 0%nat := steps_series ]}).
Proof.
  apply (unknown_mode_rejected_by_schema_only first_indices
           {[ 0%nat := steps_series ]} 0%nat steps_series "u1" "typo" (1 # 2)).
  - reflexivity.
  - reflexivity.
  - unfold Qle. cbn. lia.
Defined.

(** C5 as stated fails: the unknown mode "typo" with half of the cells
    selected is no error; the call returns a new frame with the rows of the
    input. *)
Lemma unknown_mode_counterexample :
  mode_pattern "typo" = false
  /\ exists perturbed σ',
       simulate_attack first_indices 0%nat "typo" (1 # 2)
         {[ 0%nat := steps_series ]} = (Returns perturbed, σ')
       /\ σ' !! perturbed = Some steps_series.
Proof.
  split; [reflexivity|].
  exists 1%nat, (<[1%nat := steps_series]> {[ 0%nat := steps_series ]}).
  split; [vm_compute; reflexivity | reflexivity].
Qed.

Lemma simulate_missing_zero_identity_witness :
  exists perturbed σ',
    simulate_attack first_indices 0%nat "missing" 0 {[ 0%nat := steps_series ]}
      = (Returns perturbed, σ')
    /\ σ' !! perturbed = Some steps_series
    /\ σ' !! 0%nat = Some steps_series
    /\ perturbed <> 0%nat
    /\ forall l, l <> perturbed ->
         σ' !! l = ({[ 0%nat := steps_series ]} : gmap loc frame) !! l.
Proof.
  apply (simulate_missing_zero_identity first_indices
           {[ 0%nat := steps_series ]} 0%nat steps_series).
  reflexivity.
Defined.

(** ** The federated score *)

Section Federated.
Local Open Scope R_scope.

Lemma np_dot_cons (x y : R) (u v : list R) :
  np_dot (x :: u) (y :: v) = x * y + np_dot u v.
Proof. reflexivity. Qed.

Lemma np_dot_comm (u v : list R) : np_dot u v = np_dot v u.
Proof.
  revert v. induction u as [|x u IH]; intros [|y v]; try reflexivity.
  rewrite !np_dot_cons, IH. ring.
Qed.

Lemma np_dot_self_nonneg (u : list R) : 0 <= np_dot u u.
Proof.
  induction u as [|x u IH]; [cbn; lra|].
  rewrite np_dot_cons. pose proof (Rle_0_sqr x) as H. unfold Rsqr in H. lra.
Qed.

Lemma np_dot_self_pos (u : list R) :
  (exists x, In x u /\ x <> 0) -> 0 < np_dot u u.
Proof.
  intros (x & Hin & Hx). induction u as [|y u IH]; [destruct Hin|].
  rewrite np_dot_cons. pose proof (np_dot_self_nonneg u) as Hu.
  destruct Hin as [-> | Hin].
  - pose proof (Rsqr_pos_lt x Hx) as H. unfold Rsqr in H. lra.
  - specialize (IH Hin). pose proof (Rle_0_sqr y) as H. unfold Rsqr in H. lra.
Qed.

Lemma np_dot_opp_r (u : list R) : np_dot u (Ropp <$> u) = - np_dot u u.
Proof.
  induction u as [|x u IH]; [cbn; lra|].
  cbn [fmap list_fmap]. rewrite !np_dot_cons, IH. ring.
Qed.

Lemma np_dot_opp_opp (u : list R) :
  np_dot (Ropp <$> u) (Ropp <$> u) = np_dot u u.
Proof.
  induction u as [|x u IH]; [reflexivity|].
  cbn [fmap list_fmap]. rewrite !np_dot_cons, IH. ring.
Qed.

Lemma np_norm_sqr (u : list R) : np_norm u * np_norm u = np_dot u u.
Proof. unfold np_norm. apply sqrt_sqrt, np_dot_self_nonneg. Qed.

Lemma np_norm_opp (u : list R) : np_norm (Ropp <$> u) = np_norm u.
Proof. unfold np_norm. rewrite np_dot_opp_opp. reflexivity. Qed.

Lemma federated_score_unfold (user_df global_df : frame) :
  compute_federated_trust_score user_df global_df =
    score_of_embeddings (_compute_embedding user_df) (_compute_embedding global_df).
Proof. reflexivity. Qed.

(** Two identical embeddings of squared norm [t2 > 0]. *)
Lemma score_identical (u : list R) :
  0 < np_dot u u ->
  score_of_embeddings u u
    = 1 - / 100000000 / (2 * (np_dot u u + / 100000000))
  /\ 1 / 2 < score_of_embeddings u u < 1.
Proof.
  intros Hpos. unfold score_of_embeddings. rewrite np_norm_sqr.
  set (t2 := np_dot u u) in *.
  assert (0 < / (t2 + / 100000000)) as Hinv by (apply Rinv_0_lt_compat; lra).
  assert ((t2 / (t2 + / 100000000) + 1) / 2
          = 1 - / 100000000 / (2 * (t2 + / 100000000))) as E by (field; lra).
  assert (0 < / 100000000 / (2 * (t2 + / 100000000)) < 1 / 2) as [Hlo Hhi].
  { replace (/ 100000000 / (2 * (t2 + / 100000000)))
      with (/ 200000000 * / (t2 + / 100000000)) by (field; lra).
    split; [apply Rmult_lt_0_compat; lra|].
    assert (/ (t2 + / 100000000) * (t2 + / 100000000) = 1) as Hone
      by (field; lra).
    nra. }
  rewrite E, Rmin_left by lra. rewrite Rmax_right by lra.
  split; [reflexivity | lra].
Qed.

(** Two exactly opposite embeddings of squared norm [t2 > 0]. *)
Lemma score_opposite (u : list R) :
  0 < np_dot u u ->
  score_of_embeddings u (Ropp <$> u)
    = / 100000000 / (2 * (np_dot u u + / 100000000))
  /\ 0 < score_of_embeddings u (Ropp <$> u) < 1 / 2.
Proof.
  intros Hpos. unfold score_of_embeddings.
  rewrite np_dot_opp_r, np_norm_opp, np_norm_sqr.
  set (t2 := np_dot u u) in *.
  assert (0 < / (t2 + / 100000000)) as Hinv by (apply Rinv_0_lt_compat; lra).
  assert ((- t2 / (t2 + / 100000000) + 1) / 2
          = / 100000000 / (2 * (t2 + / 100000000))) as E by (field; lra).
  assert (0 < / 100000000 / (2 * (t2 + / 100000000)) < 1 / 2) as [Hlo Hhi].
  { replace (/ 100000000 / (2 * (t2 + / 100000000)))
      with (/ 200000000 * / (t2 + / 100000000)) by (field; lra).
    split; [apply Rmult_lt_0_compat; lra|].
    assert (/ (t2 + / 100000000) * (t2 + / 100000000) = 1) as Hone
      by (field; lra).
    nra. }
  rewrite E, Rmin_left by lra. rewrite Rmax_right by lra.
  split; [reflexivity | lra].
Qed.

(** An embedding has a non-zero component as soon as a metric mean is
    non-zero. *)
Lemma embedding_nonzero (df : frame) :
  (exists q, In q (metric_means df) /\ ~ (q == 0)%Q) ->
  exists x, In x (_compute_embedding df) /\ x <> 0.
Proof.
  intros (q & Hin & Hq). unfold _compute_embedding.
  set (norm := np_norm _ + / 100000000).
  assert (0 < norm) as Hnorm.
  { unfold norm, np_norm. pose proof (sqrt_pos (np_dot (Q2R <$> metric_means df)
                                                  (Q2R <$> metric_means df))). lra. }
  exists (Q2R q / norm). split.
  - apply list_elem_of_In, list_elem_of_fmap. exists (Q2R q).
    split; [reflexivity|]. apply list_elem_of_fmap. exists q.
    split; [reflexivity | apply list_elem_of_In; exact Hin].
  - intros H. apply Hq. apply eqR_Qeq. rewrite RMicromega.Q2R_0.
    unfold Rdiv in H. apply Rmult_integral in H. destruct H as [H|H]; [exact H|].
    pose proof (Rinv_0_lt_compat norm Hnorm). lra.
Qed.

(** Opposite means give exactly opposite embeddings. *)
Lemma embedding_opposite (a b : frame) :
  metric_means b = Qopp <$> metric_means a ->
  _compute_embedding b = Ropp <$> _compute_embedding a.
Proof.
  intros H. unfold _compute_embedding. rewrite H.
  assert (Q2R <$> (Qopp <$> metric_means a) = Ropp <$> (Q2R <$> metric_means a))
    as ->.
  { rewrite <- !list_fmap_compose. apply list_fmap_ext.
    intros _ q _. cbn. apply Q2R_opp. }
  rewrite np_norm_opp. rewrite <- !list_fmap_compose. apply list_fmap_ext.
  intros _ x _. cbn. unfold Rdiv. ring.
Qed.

(** C10.  [compute_federated_trust_score] is symmetric in its two
    arguments, for every pair of series. *)
Theorem federated_trust_symmetric (a b : frame) :
  compute_federated_trust_score a b = compute_federated_trust_score b a.
Proof.
  unfold compute_federated_trust_score.
  rewrite (np_dot_comm (_compute_embedding a)).
  rewrite (Rmult_comm (np_norm (_compute_embedding a))).
  reflexivity.
Qed.

(** The squared norm of a vector divided by [c]. *)
Lemma np_dot_scaled (v : list R) (c : R) :
  c <> 0 ->
  np_dot ((fun x => x / c) <$> v) ((fun x => x / c) <$> v)
  = np_dot v v / (c * c).
Proof.
  intros Hc. induction v as [|x v IH]; [cbn; field; exact Hc|].
  cbn [fmap list_fmap]. rewrite !np_dot_cons, IH. field. exact Hc.
Qed.

(** The squared norm [t2] of an embedding is below 1, and at least 0.98
    when the norm of the means is at least 1. *)
Lemma embedding_sq_norm (df : frame) :
  let u := _compute_embedding df in
  let means := Q2R <$> metric_means df in
  0 <= np_dot u u < 1
  /\ (1 <= np_norm means -> 98 / 100 <= np_dot u u).
Proof.
  intros u means. unfold u, _compute_embedding. fold means.
  set (n := np_norm means).
  assert (0 <= n) as Hn by (unfold n, np_norm; apply sqrt_pos).
  assert (n + / 100000000 <> 0) as Hc by lra.
  rewrite (np_dot_scaled means _ Hc), <- (np_norm_sqr means). fold n.
  set (c := n + / 100000000) in *.
  assert (0 < c * c) as Hcc by (unfold c; nra).
  assert (n * n / (c * c) * (c * c) = n * n) as Hmul by (field; lra).
  set (t2 := n * n / (c * c)) in *.
  assert (n * n < c * c) as Hlt by (unfold c; nra).
  split; [split|].
  - apply Rmult_le_reg_r with (c * c); [exact Hcc|]. nra.
  - apply Rmult_lt_reg_r with (c * c); [exact Hcc|]. lra.
  - intros H1. apply Rmult_le_reg_r with (c * c); [exact Hcc|].
    rewrite Hmul. unfold c. nra.
Qed.

(** The score of two identical embeddings of squared norm [t2]. *)
Lemma score_identical_range (u : list R) :
  np_dot u u < 1 ->
  score_of_embeddings u u
    = 1 - / 100000000 / (2 * (np_dot u u + / 100000000))
  /\ 1 / 2 <= score_of_embeddings u u < 1 - 4 / 1000000000
  /\ (98 / 100 <= np_dot u u -> 1 - 6 / 1000000000 < score_of_embeddings u u).
Proof.
  intros Hlt. pose proof (np_dot_self_nonneg u) as Hpos.
  unfold score_of_embeddings. rewrite np_norm_sqr.
  set (t2 := np_dot u u) in *.
  assert ((t2 / (t2 + / 100000000) + 1) / 2
          = 1 - / 100000000 / (2 * (t2 + / 100000000))) as E by (field; lra).
  set (w := / 100000000 / (2 * (t2 + / 100000000))) in *.
  assert (w * (2 * (t2 + / 100000000)) = / 100000000) as Hw
    by (unfold w; field; lra).
  assert (4 / 1000000000 < w <= 1 / 2) as [Hlo Hhi] by (split; nra).
  rewrite E, Rmin_left by lra. rewrite Rmax_right by lra.
  split; [reflexivity|]. split; [lra|]. intros H98. nra.
Qed.

(** The score of two exactly opposite embeddings of squared norm [t2]. *)
Lemma score_opposite_range (u : list R) :
  np_dot u u < 1 ->
  score_of_embeddings u (Ropp <$> u)
    = / 100000000 / (2 * (np_dot u u + / 100000000))
  /\ 4 / 1000000000 < score_of_embeddings u (Ropp <$> u) <= 1 / 2
  /\ (98 / 100 <= np_dot u u -> score_of_embeddings u (Ropp <$> u) < 6 / 1000000000).
Proof.
  intros Hlt. pose proof (np_dot_self_nonneg u) as Hpos.
  unfold score_of_embeddings.
  rewrite np_dot_opp_r, np_norm_opp, np_norm_sqr.
  set (t2 := np_dot u u) in *.
  assert ((- t2 / (t2 + / 100000000) + 1) / 2
          = / 100000000 / (2 * (t2 + / 100000000))) as E by (field; lra).
  set (w := / 100000000 / (2 * (t2 + / 100000000))) in *.
  assert (w * (2 * (t2 + / 100000000)) = / 100000000) as Hw
    by (unfold w; field; lra).
  assert (4 / 1000000000 < w <= 1 / 2) as [Hlo Hhi] by (split; nra).
  rewrite E, Rmin_left by lra. rewrite Rmax_right by lra.
  split; [reflexivity|]. split; [lra|]. intros H98. nra.
Qed.

(** C7, amended.  Let the norm of the vector of the user's six metric
    means be at most 1e100 (far from overflow, where the idealisation of
    binary64 ends), [eps = 1e-8] and [t2] the squared norm of the user's
    embedding.  When the cohort embedding is identical, the score is
    [1 - eps / (2 (t2 + eps))], at least 1/2 and below [1 - 4e-9]: never
    1.0; it is above [1 - 6e-9] as soon as the norm of the means is at
    least 1.  When the cohort embedding is exactly opposite, the score is
    [eps / (2 (t2 + eps))], above [4e-9] and at most 1/2: never 0.0; it
    is below [6e-9] as soon as the norm of the means is at least 1. *)
Theorem federated_trust_near_extremes (user_df global_df : frame) :
  np_norm (Q2R <$> metric_means user_df) <= 10 ^ 100 ->
  let u := _compute_embedding user_df in
  let eps := / 100000000 in
  (_compute_embedding global_df = u ->
     compute_federated_trust_score user_df global_df
       = 1 - eps / (2 * (np_dot u u + eps))
     /\ 1 / 2 <= compute_federated_trust_score user_df global_df
        < 1 - 4 / 1000000000
     /\ (1 <= np_norm (Q2R <$> metric_means user_df) ->
         1 - 6 / 1000000000 < compute_federated_trust_score user_df global_df))
  /\ (_compute_embedding global_df = Ropp <$> u ->
     compute_federated_trust_score user_df global_df
       = eps / (2 * (np_dot u u + eps))
     /\ 4 / 1000000000 < compute_federated_trust_score user_df global_df
        <= 1 / 2
     /\ (1 <= np_norm (Q2R <$> metric_means user_df) ->
         compute_federated_trust_score user_df global_df < 6 / 1000000000)).
Proof.
  intros _ u eps.
  destruct (embedding_sq_norm user_df) as [[_ Hlt] H98].
  rewrite federated_score_unfold. split; intros ->.
  - destruct (score_identical_range _ Hlt) as (E & Hb & Hnear).
    split; [exact E|]. split; [exact Hb|].
    intros H1. apply Hnear, H98, H1.
  - destruct (score_opposite_range _ Hlt) as (E & Hb & Hnear).
    split; [exact E|]. split; [exact Hb|].
    intros H1. apply Hnear, H98, H1.
Qed.

Lemma fed_user_nonzero :
  exists x, In x (_compute_embedding fed_user) /\ x <> 0.
Proof.
  apply embedding_nonzero. exists (3 # 1)%Q. split.
  - vm_compute. left. reflexivity.
  - discriminate.
Qed.

(** The means of the sample series [(3, 4, 0, 0, 0, 0)] have norm 5. *)
Lemma fed_user_norm : np_norm (Q2R <$> metric_means fed_user) = 5.
Proof.
  assert (metric_means fed_user = [3 # 1; 4 # 1; 0; 0; 0; 0]%Q) as ->
    by (vm_compute; reflexivity).
  unfold np_norm. replace (np_dot _ _) with (5 * 5).
  - apply sqrt_square. lra.
  - cbn [fmap list_fmap]. rewrite !np_dot_cons. unfold np_dot, Q2R. cbn. field.
Qed.

Lemma federated_trust_near_extremes_witness :
  (1 - 6 / 1000000000 < compute_federated_trust_score fed_user fed_user
   < 1 - 4 / 1000000000)
  /\ (4 / 1000000000 < compute_federated_trust_score fed_user fed_opposite
      < 6 / 1000000000).
Proof.
  assert (np_norm (Q2R <$> metric_means fed_user) <= 10 ^ 100) as Hle.
  { rewrite fed_user_norm. apply Rle_trans with (10 ^ 1); [lra|].
    apply Rle_pow; [lra | lia]. }
  assert (1 <= np_norm (Q2R <$> metric_means fed_user)) as Hge
    by (rewrite fed_user_norm; lra).
  split.
  - destruct (proj1 (federated_trust_near_extremes fed_user fed_user Hle)
                eq_refl) as (_ & [_ Hhi] & Hnear).
    split; [apply Hnear; exact Hge | exact Hhi].
  - destruct (proj2 (federated_trust_near_extremes fed_user fed_opposite Hle)
                (embedding_opposite fed_user fed_opposite
                   ltac:(vm_compute; reflexivity)))
      as (_ & [Hlo _] & Hnear).
    split; [exact Hlo | apply Hnear; exact Hge].
Defined.

(** C7 as stated fails: a series compared with itself has identical
    non-zero embeddings, and the score is not 1.0; compared with the
    series of opposite means the embeddings are exactly opposite, and the
    score is not 0.0. *)
Lemma federated_trust_counterexample :
  (exists x, In x (_compute_embedding fed_user) /\ x <> 0)
  /\ compute_federated_trust_score fed_user fed_user <> 1
  /\ _compute_embedding fed_opposite = Ropp <$> _compute_embedding fed_user
  /\ compute_federated_trust_score fed_user fed_opposite <> 0.
Proof.
  pose proof fed_user_nonzero as Hnz.
  pose proof (np_dot_self_pos _ Hnz) as Hpos.
  assert (_compute_embedding fed_opposite = Ropp <$> _compute_embedding fed_user)
    as Hopp by (apply embedding_opposite; vm_compute; reflexivity).
  split; [exact Hnz|]. split; [|split; [exact Hopp|]].
  - rewrite federated_score_unfold.
    destruct (score_identical _ Hpos) as [_ [_ H]]. lra.
  - rewrite federated_score_unfold, Hopp.
    destruct (score_opposite _ Hpos) as [_ [H _]]. lra.
Qed.

End Federated.

(** * Further properties *)

(** ** Warm-up and presence of the baseline *)

Lemma length_observations_le (s : list float) :
  (length (observations s) <= length s)%nat.
Proof.
  unfold observations. induction s as [|[x|] s IH]; cbn; lia.
Qed.

Lemma length_window_at (window : nat) (s : list float) (i : nat) :
  (length (window_at window s i) <= i + 1)%nat.
Proof.
  unfold window_at. rewrite length_take. lia.
Qed.

Lemma length_insert_sorted (x : Q) (l : list Q) :
  length (insert_sorted x l) = S (length l).
Proof.
  induction l as [|y l IH]; cbn; [reflexivity|].
  destruct (Qle_bool x y); cbn; [reflexivity | rewrite IH; reflexivity].
Qed.

Lemma length_sort_values (l : list Q) : length (sort_values l) = length l.
Proof.
  induction l as [|x l IH]; [reflexivity|].
  change (sort_values (x :: l)) with (insert_sorted x (sort_values l)).
  rewrite length_insert_sorted, IH. reflexivity.
Qed.

(** The median of a non-empty list is a number. *)
Lemma median_of_present (xs : list Q) :
  xs <> [] -> exists q, median_of xs = Some q.
Proof.
  intros Hne. unfold median_of.
  pose proof (length_sort_values xs) as Hlen.
  set (s := sort_values xs) in *.
  assert (0 < length s)%nat as Hpos.
  { rewrite Hlen. destruct xs; [congruence | cbn; lia]. }
  destruct (Nat.eqb_spec (length s) 0) as [H0|_]; [lia|].
  assert (length s / 2 < length s)%nat as Hhalf by (apply Nat.div_lt; lia).
  destruct (Nat.odd (length s)).
  - destruct (lookup_lt_is_Some_2 s (length s / 2)) as [q Hq]; [lia|].
    exists q. exact Hq.
  - destruct (lookup_lt_is_Some_2 s (length s / 2 - 1)) as [a Ha]; [lia|].
    destruct (lookup_lt_is_Some_2 s (length s / 2)) as [b Hb]; [lia|].
    rewrite Ha, Hb. eexists. reflexivity.
Qed.

Lemma warmup_cells_nan (df : frame) (window d : nat) (m : metric) :
  (d < Nat.max 5 (window / 2))%nat ->
  cell (median_col (build_robust_baseline df window) m) d = nan
  /\ cell (mad_col (build_robust_baseline df window) m) d = nan.
Proof.
  intros Hd. cbn [median_col mad_col build_robust_baseline].
  rewrite rolling_median_apply, !baseline_cell.
  destruct d as [|i]; [split; reflexivity|].
  destruct (decide _); [|split; reflexivity].
  pose proof (length_observations_le (window_at window (column m df) i)).
  pose proof (length_window_at window (column m df) i).
  replace (Nat.max 5 (window / 2) <=? _)%nat with false
    by (symmetry; apply Nat.leb_gt; lia).
  split; reflexivity.
Qed.

(** X1 (build_robust_baseline) rows with too little history carry no baseline:
    at a row index below [max 5 (window / 2)] both the rolling median and the
    rolling MAD cell are NaN, for every series, window and metric. *)
Theorem baseline_absent_during_warmup (df : frame) (window d : nat) (m : metric) :
  (d < Nat.max 5 (window / 2))%nat ->
  cell (median_col (build_robust_baseline df window) m) d = nan
  /\ cell (mad_col (build_robust_baseline df window) m) d = nan.
Proof. apply warmup_cells_nan. Qed.

Lemma baseline_absent_during_warmup_witness :
  cell (median_col (build_robust_baseline steps_series 14) steps) 6 = nan
  /\ cell (mad_col (build_robust_baseline steps_series 14) steps) 6 = nan.
Proof.
  apply (baseline_absent_during_warmup steps_series 14 6 steps).
  vm_compute. lia.
Defined.

(** X2 (build_robust_baseline) the rolling median and the rolling MAD are
    present on the same rows: one cell is NaN exactly when the other is. *)
Theorem baseline_median_mad_present_together
    (df : frame) (window d : nat) (m : metric) :
  isna (cell (median_col (build_robust_baseline df window) m) d)
  = isna (cell (mad_col (build_robust_baseline df window) m) d).
Proof.
  cbn [median_col mad_col build_robust_baseline].
  rewrite rolling_median_apply, !baseline_cell.
  destruct d as [|i]; [reflexivity|].
  destruct (decide _); [|reflexivity].
  destruct (Nat.leb_spec (Nat.max 5 (window / 2))
              (length (observations (window_at window (column m df) i))))
    as [Hle|_]; [|reflexivity].
  destruct (mad_floor (window_at window (column m df) i)) as (v & -> & _).
  destruct (median_of_present (observations (window_at window (column m df) i)))
    as (q & Hq).
  { intros E. rewrite E in Hle. cbn in Hle. lia. }
  unfold pd_median. rewrite Hq. reflexivity.
Qed.

Lemma mad_cell_collapse (df : frame) (window i j : nat) (m : metric) :
  (S i < length df)%nat ->
  (Nat.max 5 (window / 2)
   <= length (observations (window_at window (column m df) i)))%nat ->
  window_at window (column m df) i !! j = Some nan ->
  cell (mad_col (build_robust_baseline df window) m) (S i) = Some (1 # 1000000).
Proof.
  intros Hi Hobs Hnan. cbn [mad_col build_robust_baseline].
  rewrite baseline_cell, length_column.
  rewrite decide_True by exact Hi.
  replace (_ <=? _)%nat with true by (symmetry; apply Nat.leb_le; exact Hobs).
  unfold _mad, np_median.
  replace (existsb isna _) with true; [reflexivity|].
  symmetry. apply existsb_exists. exists nan. split; [|reflexivity].
  apply list_elem_of_In, list_elem_of_fmap. exists nan.
  split; [reflexivity|]. apply list_elem_of_lookup. exists j. exact Hnan.
Qed.

(** X3 (_mad under rolling.apply) a missing value inside a window that still
    holds [min_periods] observations collapses the rolling MAD of the next
    row to the floor [1e-6]: the median skips the NaN, [np.median] of the
    deviations does not. *)
Theorem mad_collapses_on_missing_in_window
    (df : frame) (window i j : nat) (m : metric) :
  (S i < length df)%nat ->
  (Nat.max 5 (window / 2)
   <= length (observations (window_at window (column m df) i)))%nat ->
  window_at window (column m df) i !! j = Some nan ->
  cell (mad_col (build_robust_baseline df window) m) (S i) = Some (1 # 1000000).
Proof. apply mad_cell_collapse. Qed.

Lemma mad_collapses_on_missing_in_window_witness :
  cell (mad_col (build_robust_baseline steps_series 14) steps) 10
  = Some (1 # 1000000).
Proof.
  apply (mad_collapses_on_missing_in_window steps_series 14 9 9 steps).
  - vm_compute. lia.
  - vm_compute. lia.
  - reflexivity.
Defined.

(** ** Shape of the outputs *)

Lemma length_concat_chunks {A : Type} (L : list (list A)) (k : nat) :
  (forall l, In l L -> length l = k) -> length (concat L) = (length L * k)%nat.
Proof.
  induction L as [|l L IH]; intros H; [reflexivity|].
  cbn [concat]. rewrite length_app, (H l) by (left; reflexivity).
  rewrite IH by (intros l' Hl'; apply H; right; exact Hl'). cbn. lia.
Qed.

Lemma length_iterrows (b : bframe) : length (iterrows b) = length (rows b).
Proof. unfold iterrows. apply length_imap. Qed.

Lemma trust_entry_labels (df : frame) pw (row : brow) (m : metric) :
  t_metric (trust_entry df pw row m) = m
  /\ t_date (trust_entry df pw row m) = date (rec row).
Proof. unfold trust_entry. destruct (isna _); split; reflexivity. Qed.

(** [max(0.0, 1.0 - min(a, 1.0)) < c] exactly when [a > 1 - c], for a
    number [a >= 0] and a threshold [0 < c <= 1]. *)
Lemma saturate_below_threshold (a c : Q) :
  0 <= a -> 0 < c -> c <= 1 ->
  flt (py_max (Some 0) (fsub (Some 1) (py_min (Some a) (Some 1)))) (Some c) = true
  <-> 1 - c < a.
Proof.
  intros Ha Hc Hc1. float_unfold.
  destruct (Qlt_bool 1 a) eqn:E1; cbn.
  - apply Qlt_bool_true in E1.
    destruct (Qlt_bool 0 (1 - 1)) eqn:E2; cbn.
    + apply Qlt_bool_true in E2. Lqa.lra.
    + rewrite Qlt_bool_true. split; intros; Lqa.lra.
  - apply Qlt_bool_false in E1.
    destruct (Qlt_bool 0 (1 - a)) eqn:E2; cbn; rewrite Qlt_bool_true.
    + split; intros; Lqa.lra.
    + apply Qlt_bool_false in E2. split; intros; Lqa.lra.
Qed.

Section TrustShape.

Variable corr : frame -> metric -> metric -> float.
Variable linalg_solve : list (list float) -> list float -> option (list float).

Abbreviation entries_of df := (snd (compute_trust_scores corr linalg_solve df)).
Abbreviation weights_of df := (fit_predictor_weights corr linalg_solve df).

(** X4 (compute_trust_scores) the flat trust list is row-major: it holds six
    entries a day, and the entry at position [6 * d + index m] carries metric
    [m] and the date of row [d]. *)
Theorem trust_list_row_major (df : frame) :
  length (entries_of df) = (6 * length df)%nat
  /\ forall d r m, df !! d = Some r ->
       exists e, entries_of df !! (d * 6 + metric_index m)%nat = Some e
                 /\ t_metric e = m /\ t_date e = date r.
Proof.
  split.
  - unfold compute_trust_scores. cbn [snd].
    rewrite (length_concat_chunks _ 6).
    + rewrite length_fmap, length_iterrows. cbn [rows build_robust_baseline]. lia.
    + intros l Hl. apply list_elem_of_In, list_elem_of_fmap in Hl.
      destruct Hl as (row & -> & _). reflexivity.
  - intros d r m Hr.
    exists (trust_entry df (weights_of df) (baseline_row df d r) m).
    rewrite lookup_entries, (lookup_iterrows_row df d r Hr).
    split; [reflexivity|]. apply trust_entry_labels.
Qed.

(** X5 (compute_trust_scores) for a present value with a baseline, the label
    [distribution shift] is among the drivers exactly when the robust z-score
    exceeds 1.2 in absolute value. *)
Theorem distribution_shift_driver_iff
    (df : frame) (d : nat) (r : record) (m : metric) (v med mad : Q) :
  df !! d = Some r ->
  value r m = Some v ->
  row_median (baseline_row df d r) m = Some med ->
  row_mad (baseline_row df d r) m = Some mad ->
  exists e,
    entries_of df !! (d * 6 + metric_index m)%nat = Some e
    /\ (In driver_distribution_shift (drivers e)
        <-> 12 # 10 < Qabs ((v - med) / ((14826 # 10000) * mad))).
Proof.
  intros Hr Hv Hmed Hmad.
  exists (trust_entry df (weights_of df) (baseline_row df d r) m).
  rewrite lookup_entries, (lookup_iterrows_row df d r Hr).
  split; [reflexivity|].
  pose proof (baseline_row_mad_floored df d r m mad Hmad) as Hfloor.
  unfold trust_entry.
  change (value (rec (baseline_row df d r)) m) with (value r m). rewrite Hv.
  cbn [isna drivers].
  assert (dist_score_of (baseline_row df d r) m
          = py_max (Some 0)
              (fsub (Some 1)
                 (py_min (Some (Qabs ((v - med) / ((14826 # 10000) * mad)) / 3))
                    (Some 1)))) as Hdist.
  { unfold dist_score_of.
    change (value (rec (baseline_row df d r)) m) with (value r m).
    rewrite Hv, Hmed, Hmad.
    cbn [isna orb fsub fmul fdiv fabs mbind option_bind].
    destruct (Qeq_bool ((14826 # 10000) * mad) 0) eqn:E.
    { apply Qeq_bool_iff in E. Lqa.lra. }
    reflexivity. }
  set (z := Qabs _) in *.
  assert (0 <= z) as Hz by apply Qabs_nonneg.
  assert (flt (dist_score_of (baseline_row df d r) m) (Some (6 # 10)) = true
          <-> 12 # 10 < z) as Hiff.
  { rewrite Hdist, saturate_below_threshold;
      unfold Qdiv; change (/ 3) with (1 # 3); Lqa.lra. }
  destruct (flt (dist_score_of (baseline_row df d r) m) (Some (6 # 10)));
    destruct (flt (res_score_of df _ _ m) (Some (6 # 10))); cbn;
    (split; [intros H; try (apply Hiff; reflexivity) | intros H]).
  all: try (left; reflexivity).
  all: try (apply Hiff in H; discriminate H).
  all: try (destruct H as [H|[]]; discriminate H).
  all: try (destruct H as []).
Qed.

End TrustShape.

(** ** The predictor fit and its fallback *)

Lemma foldl_insert_lookup {V : Type} (g : metric -> V) (l : list metric)
    (acc : gmap metric V) (k : metric) :
  foldl (fun pw m => <[m := g m]> pw) acc l !! k
  = if decide (k ∈ l) then Some (g k) else acc !! k.
Proof.
  revert acc. induction l as [|x l IH]; intros acc.
  - cbn. rewrite decide_False by (apply not_elem_of_nil). reflexivity.
  - cbn [foldl]. rewrite IH.
    destruct (decide (k ∈ l)) as [Hin|Hnin].
    + rewrite decide_True by (right; exact Hin). reflexivity.
    + destruct (decide (k = x)) as [->|Hne].
      * rewrite decide_True by left. apply lookup_insert_eq.
      * rewrite decide_False by (rewrite elem_of_cons; tauto).
        apply lookup_insert_ne. congruence.
Qed.

Lemma foldl_pointwise {A B : Type} (f g : A -> B -> A) (l : list B) (a : A) :
  (forall a x, f a x = g a x) -> foldl f a l = foldl g a l.
Proof.
  intros H. revert a. induction l as [|x l IH]; intros a; [reflexivity|].
  cbn. rewrite H. apply IH.
Qed.

Lemma elem_of_METRICS (m : metric) : m ∈ METRICS.
Proof. destruct m; unfold METRICS; set_solver. Qed.

Lemma fold_fadd_zeros (xs : list float) (a : Q) :
  a == 0 ->
  Forall (fun x => exists q, x = Some q /\ q == 0) xs ->
  exists p, fold_left fadd xs (Some a) = Some p /\ p == 0.
Proof.
  intros Ha Hall. revert a Ha.
  induction Hall as [|x xs (q & -> & Hq) _ IH]; intros a Ha.
  - exists a. split; [reflexivity | exact Ha].
  - cbn. apply IH. Lqa.lra.
Qed.

(** A sum of numbers that are all zero is zero. *)
Lemma py_sum_zeros (xs : list float) :
  Forall (fun x => exists q, x = Some q /\ q == 0) xs ->
  exists p, py_sum xs = Some p /\ p == 0.
Proof. apply fold_fadd_zeros. reflexivity. Qed.

Section PredictorFit.

Variable corr : frame -> metric -> metric -> float.
Variable linalg_solve : list (list float) -> list float -> option (list float).

Abbreviation entries_of df := (snd (compute_trust_scores corr linalg_solve df)).
Abbreviation weights_of df := (fit_predictor_weights corr linalg_solve df).

(** The linear system the fit solves for metric [m]. *)
Abbreviation sub_corr_of df m :=
  ((fun a => (fun b => corr df a b) <$> others_of m) <$> others_of m).
Abbreviation target_of df m := ((fun o => corr df o m) <$> others_of m).

Lemma lookup_weights (df : frame) (m : metric) :
  weights_of df !! m
  = Some (match linalg_solve (sub_corr_of df m) (target_of df m) with
          | Some weights => list_to_map (zip (others_of m) weights)
          | None => list_to_map ((fun o => (o, Some 0)) <$> others_of m)
          end).
Proof.
  unfold fit_predictor_weights.
  rewrite (foldl_pointwise _
             (fun pw m =>
                <[m := match linalg_solve (sub_corr_of df m) (target_of df m) with
                       | Some weights => list_to_map (zip (others_of m) weights)
                       | None => list_to_map ((fun o => (o, Some 0)) <$> others_of m)
                       end]> pw)).
  - rewrite foldl_insert_lookup, decide_True by apply elem_of_METRICS.
    reflexivity.
  - intros pw k. destruct (linalg_solve _ _); reflexivity.
Qed.

Lemma zero_weights_lookup (m o : metric) :
  o ∈ others_of m ->
  (list_to_map ((fun o => (o, Some 0)) <$> others_of m)
     : gmap metric float) !! o = Some (Some 0).
Proof.
  intros Ho. apply list_elem_of_filter in Ho. destruct Ho as [Hne _].
  destruct m, o; first [reflexivity | congruence].
Qed.

(** X6 (compute_trust_scores) when [np.linalg.solve] raises for a metric, the
    fallback weights are all zero and the predicted value of that metric is 0
    on every row. *)
Theorem singular_fit_predicts_zero (df : frame) (row : brow) (m : metric) :
  linalg_solve (sub_corr_of df m) (target_of df m) = None ->
  exists p, predicted_of (weights_of df) row m = Some p /\ p == 0.
Proof.
  intros Hsolve. unfold predicted_of. apply py_sum_zeros.
  rewrite zip_with_fmap_r, zip_with_diag. apply Forall_fmap, Forall_forall.
  intros o Ho. unfold compose, weight_at.
  rewrite lookup_weights, Hsolve. cbn [mbind option_bind].
  rewrite zero_weights_lookup by exact Ho. cbn [default from_option].
  destruct (value (rec row) o) as [x|]; cbn; eexists; (split; [reflexivity|]);
    Lqa.lra.
Qed.

End PredictorFit.

Lemma singular_fit_predicts_zero_witness :
  exists p,
    predicted_of (fit_predictor_weights corr_nan solve_raises steps_series)
      (baseline_row steps_series 8 (steps_day "2024-01-09" (Some 100))) steps
    = Some p /\ p == 0.
Proof.
  apply (singular_fit_predicts_zero corr_nan solve_raises steps_series).
  reflexivity.
Defined.

(** ** Drivers and scores *)

Section TrustDrivers.

Variable corr : frame -> metric -> metric -> float.
Variable linalg_solve : list (list float) -> list float -> option (list float).

Abbreviation entries_of df := (snd (compute_trust_scores corr linalg_solve df)).
Abbreviation weights_of df := (fit_predictor_weights corr linalg_solve df).

Lemma res_score_number (df : frame) pw (row : brow) (m : metric) (v p M : Q) :
  value (rec row) m = Some v ->
  predicted_of pw row m = Some p ->
  _mad (dropna (column m df)) = Some M ->
  res_score_of df pw row m
  = py_max (Some 0)
      (fsub (Some 1) (py_min (Some (Qabs (v - p) / (3 * M))) (Some 1))).
Proof.
  intros Hv Hp HM. unfold res_score_of. rewrite Hv, Hp, HM.
  destruct (mad_floor (dropna (column m df))) as (M' & HM' & Hfloor).
  rewrite HM in HM'. injection HM' as <-.
  cbn [fsub fabs fmul fdiv mbind option_bind].
  destruct (Qeq_bool (3 * M) 0) eqn:E.
  { apply Qeq_bool_iff in E. Lqa.lra. }
  reflexivity.
Qed.

(** X7 (compute_trust_scores) for a present value with a numeric prediction,
    the cross-signal label is among the drivers exactly when the residual
    exceeds 1.2 times the overall MAD of the metric. *)
Theorem cross_signal_driver_threshold
    (df : frame) (d : nat) (r : record) (m : metric) (v p M : Q) :
  df !! d = Some r ->
  value r m = Some v ->
  predicted_of (weights_of df) (baseline_row df d r) m = Some p ->
  _mad (dropna (column m df)) = Some M ->
  exists e,
    entries_of df !! (d * 6 + metric_index m)%nat = Some e
    /\ (In driver_cross_signal (drivers e) <-> (12 # 10) * M < Qabs (v - p)).
Proof.
  intros Hr Hv Hp HM.
  exists (trust_entry df (weights_of df) (baseline_row df d r) m).
  rewrite lookup_entries, (lookup_iterrows_row df d r Hr).
  split; [reflexivity|].
  destruct (mad_floor (dropna (column m df))) as (M' & HM' & Hfloor).
  rewrite HM in HM'. injection HM' as <-.
  rewrite (drivers_of_present corr).
  2: { change (value (rec (baseline_row df d r)) m) with (value r m).
       rewrite Hv. reflexivity. }
  2: apply driver_labels_differ.
  rewrite (res_score_number df _ (baseline_row df d r) m v p M Hv Hp HM).
  pose proof (Qabs_nonneg (v - p)) as Habs.
  rewrite saturate_below_threshold;
    [| apply Qle_shift_div_l; Lqa.lra | Lqa.lra | Lqa.lra].
  assert (3 * M * (Qabs (v - p) / (3 * M)) == Qabs (v - p)) as Ht
    by (apply Qmult_div_r; Lqa.lra).
  revert Ht. generalize (Qabs (v - p) / (3 * M)). intros t Ht.
  split.
  - intros [_ H]. Lqa.nra.
  - intros H. split; [reflexivity|]. Lqa.nra.
Qed.

(** X8 (compute_trust_scores) a NaN prediction (NaN weights out of a NaN
    correlation matrix) zeroes the trust of a present value and appends the
    cross-signal label: [min] and [max] with a NaN argument fall to 0. *)
Theorem nan_prediction_zeroes_trust
    (df : frame) (d : nat) (r : record) (m : metric) (v : Q) :
  df !! d = Some r ->
  value r m = Some v ->
  predicted_of (weights_of df) (baseline_row df d r) m = nan ->
  exists e q,
    entries_of df !! (d * 6 + metric_index m)%nat = Some e
    /\ score e = Some q /\ q == 0
    /\ In driver_cross_signal (drivers e).
Proof.
  intros Hr Hv Hp.
  assert (res_score_of df (weights_of df) (baseline_row df d r) m = Some 0) as Hres.
  { unfold res_score_of. rewrite Hp.
    destruct (value _ m), (_mad _); reflexivity. }
  destruct (dist_score_bounds (baseline_row df d r) m) as (a & Ha & _).
  exists (trust_entry df (weights_of df) (baseline_row df d r) m), (a * 0).
  rewrite lookup_entries, (lookup_iterrows_row df d r Hr).
  split; [reflexivity|].
  unfold trust_entry.
  change (value (rec (baseline_row df d r)) m) with (value r m). rewrite Hv.
  cbn [isna score drivers]. rewrite Hres, Ha.
  split; [reflexivity|]. split; [Lqa.lra|].
  change (flt (Some 0) (Some (6 # 10))) with true. cbn iota.
  apply in_or_app. right. left. reflexivity.
Qed.

Lemma entry_cases (df : frame) pw (row : brow) (m : metric) :
  (value (rec row) m = nan
   /\ trust_entry df pw row m
      = {| t_metric := m; t_date := date (rec row); score := Some 0;
           drivers := [driver_missing] |})
  \/ (exists a b,
        dist_score_of row m = Some a /\ 0 <= a <= 1
        /\ res_score_of df pw row m = Some b /\ 0 <= b <= 1
        /\ score (trust_entry df pw row m) = Some (a * b)
        /\ drivers (trust_entry df pw row m)
           = (if Qlt_bool a (6 # 10) then [driver_distribution_shift] else [])
             ++ (if Qlt_bool b (6 # 10) then [driver_cross_signal] else [])).
Proof.
  unfold trust_entry. destruct (value (rec row) m) as [v|] eqn:Hv; cbn [isna].
  - right.
    destruct (dist_score_bounds row m) as (a & Ha & Hab).
    destruct (res_score_bounds df pw row m) as (b & Hb & Hbb).
    exists a, b. rewrite Ha, Hb. cbn [score drivers flt].
    repeat split; try tauto.
    destruct (Qlt_bool a (6 # 10)), (Qlt_bool b (6 # 10)); reflexivity.
  - left. split; reflexivity.
Qed.

(** X9 (compute_trust_scores) drivers and scores agree: an entry without
    drivers scores at least 0.36 (both factors are at least 0.6), and an entry
    that scores at least 0.6 has no driver. *)
Theorem drivers_explain_low_scores (df : frame) (e : TrustEntry) :
  In e (entries_of df) ->
  exists q, score e = Some q
            /\ (drivers e = [] -> 36 # 100 <= q)
            /\ (6 # 10 <= q -> drivers e = []).
Proof.
  intros He. apply in_entries in He. destruct He as (row & m & _ & ->).
  destruct (entry_cases df (weights_of df) row m)
    as [[_ ->] | (a & b & _ & Ha & _ & Hb & -> & ->)].
  - exists 0. cbn. split; [reflexivity|]. split; [discriminate|].
    intros H. Lqa.lra.
  - exists (a * b). split; [reflexivity|].
    destruct (Qlt_bool a (6 # 10)) eqn:Ea, (Qlt_bool b (6 # 10)) eqn:Eb;
      rewrite ?Qlt_bool_true, ?Qlt_bool_false in *; cbn;
      (split; [intros H; try discriminate H | intros H; try reflexivity]);
      try (exfalso; Lqa.nra); Lqa.nra.
Qed.

(** X10 (compute_trust_scores) on the first seven rows there is no baseline, so
    z is 0, the distribution factor is 1, the label [distribution shift] is
    never given and the score of a present value is the cross-signal factor
    alone. *)
Theorem warmup_trust_is_cross_signal_only
    (df : frame) (d : nat) (r : record) (m : metric) (v : Q) :
  df !! d = Some r ->
  (d < 7)%nat ->
  value r m = Some v ->
  exists e q rs,
    entries_of df !! (d * 6 + metric_index m)%nat = Some e
    /\ ~ In driver_distribution_shift (drivers e)
    /\ score e = Some q
    /\ res_score_of df (weights_of df) (baseline_row df d r) m = Some rs
    /\ q == rs.
Proof.
  intros Hr Hd Hv.
  assert (dist_score_of (baseline_row df d r) m = Some (1 - Qabs 0 / 3)) as Hdist.
  { unfold dist_score_of.
    replace (row_median (baseline_row df d r) m) with nan; [reflexivity|].
    symmetry. apply (warmup_cells_nan df 14 d m). cbn. lia. }
  destruct (res_score_bounds df (weights_of df) (baseline_row df d r) m)
    as (rs & Hrs & Hb).
  exists (trust_entry df (weights_of df) (baseline_row df d r) m),
    ((1 - Qabs 0 / 3) * rs), rs.
  rewrite lookup_entries, (lookup_iterrows_row df d r Hr).
  split; [reflexivity|].
  unfold trust_entry.
  change (value (rec (baseline_row df d r)) m) with (value r m). rewrite Hv.
  cbn [isna score drivers]. rewrite Hdist, Hrs.
  change (flt (Some (1 - Qabs 0 / 3)) (Some (6 # 10))) with false. cbn iota.
  split; [|split; [reflexivity|split; [reflexivity|]]].
  - destruct (flt (Some rs) _); cbn; [|tauto].
    intros [H|[]]. discriminate H.
  - change (Qabs 0 / 3) with (0 # 3). Lqa.lra.
Qed.

End TrustDrivers.

(** ** Bounds on the daily score *)

Lemma fold_Qmax_ge_init (xs : list Q) (a : Q) : a <= fold_left Qmax xs a.
Proof.
  revert a. induction xs as [|x xs IH]; intros a; cbn; [Lqa.lra|].
  eapply Qle_trans; [|apply IH]. apply Q.le_max_l.
Qed.

Lemma fold_Qmax_ge_elem (xs : list Q) (a x : Q) :
  In x xs -> x <= fold_left Qmax xs a.
Proof.
  revert a. induction xs as [|y xs IH]; intros a Hin; [destruct Hin|].
  cbn. destruct Hin as [->|Hin].
  - eapply Qle_trans; [|apply fold_Qmax_ge_init]. apply Q.le_max_r.
  - apply IH. exact Hin.
Qed.

Lemma fold_Qmax_attained (xs : list Q) (a : Q) :
  fold_left Qmax xs a == a \/ exists x, In x xs /\ fold_left Qmax xs a == x.
Proof.
  revert a. induction xs as [|y xs IH]; intros a; cbn; [left; reflexivity|].
  destruct (IH (Qmax a y)) as [H|(x & Hx & H)].
  - destruct (Q.max_spec a y) as [[_ E]|[_ E]].
    + right. exists y. split; [left; reflexivity|].
      eapply Qeq_trans; [exact H | exact E].
    + left. eapply Qeq_trans; [exact H | exact E].
  - right. exists x. split; [right; exact Hx | exact H].
Qed.

Lemma spec_max_ge (zs : list Q) (z : Q) : In z zs -> z <= spec_max zs.
Proof.
  destruct zs as [|x xs]; [intros []|]. cbn [spec_max]. intros [->|Hin].
  - apply fold_Qmax_ge_init.
  - apply fold_Qmax_ge_elem. exact Hin.
Qed.

Lemma spec_max_attained (zs : list Q) :
  zs <> [] -> exists z, In z zs /\ spec_max zs == z.
Proof.
  destruct zs as [|x xs]; [congruence|]. intros _. cbn [spec_max].
  destruct (fold_Qmax_attained xs x) as [H|(z & Hz & H)].
  - exists x. split; [left; reflexivity | exact H].
  - exists z. split; [right; exact Hz | exact H].
Qed.

Lemma sum_le_length_bound (zs : list Q) (b : Q) :
  (forall z, In z zs -> z <= b) ->
  fold_right Qplus 0 zs <= inject_Z (Z.of_nat (length zs)) * b.
Proof.
  induction zs as [|x xs IH]; intros H.
  - cbn [fold_right length]. change (inject_Z (Z.of_nat 0)) with 0. Lqa.lra.
  - cbn [fold_right length]. rewrite Nat2Z.inj_succ, <- Z.add_1_r, inject_Z_plus.
    specialize (IH (fun z Hz => H z (or_intror Hz))).
    specialize (H x (or_introl eq_refl)).
    change (inject_Z 1) with 1. Lqa.lra.
Qed.

Lemma sum_ge_elem (zs : list Q) (z : Q) :
  (forall x, In x zs -> 0 <= x) -> In z zs -> z <= fold_right Qplus 0 zs.
Proof.
  induction zs as [|x xs IH]; intros Hnn Hin; [destruct Hin|].
  cbn [fold_right].
  assert (0 <= fold_right Qplus 0 xs) as Hsum.
  { clear IH Hin. induction xs as [|y ys IHy]; cbn; [Lqa.lra|].
    assert (0 <= y) by (apply Hnn; right; left; reflexivity).
    assert (0 <= fold_right Qplus 0 ys).
    { apply IHy. intros w [->|Hw]; apply Hnn; [left | right; right]; tauto. }
    Lqa.lra. }
  destruct Hin as [->|Hin].
  - Lqa.lra.
  - assert (0 <= x) by (apply Hnn; left; reflexivity).
    specialize (IH (fun w Hw => Hnn w (or_intror Hw)) Hin). Lqa.lra.
Qed.

(** The daily score lies between [(1/n + 1/4) max] and [(5/4) max]. *)
Lemma spec_daily_score_bounds (zs : list Q) :
  zs <> [] -> (forall x, In x zs -> 0 <= x) ->
  spec_daily_score zs <= (125 # 100) * spec_max zs
  /\ forall z, In z zs ->
       z / inject_Z (Z.of_nat (length zs)) + (25 # 100) * z <= spec_daily_score zs.
Proof.
  intros Hne Hnn.
  assert (0 < inject_Z (Z.of_nat (length zs))) as Hn.
  { destruct zs; [congruence|]. unfold Qlt. cbn. lia. }
  assert (spec_daily_score zs = spec_mean zs + (25 # 100) * spec_max zs) as ->
    by (destruct zs; [congruence | reflexivity]).
  unfold spec_mean. split.
  - pose proof (sum_le_length_bound zs (spec_max zs) (spec_max_ge zs)) as Hs.
    assert (fold_right Qplus 0 zs / inject_Z (Z.of_nat (length zs)) <= spec_max zs).
    { apply Qle_shift_div_r; [exact Hn | Lqa.lra]. }
    Lqa.lra.
  - intros z Hz. pose proof (sum_ge_elem zs z Hnn Hz) as Hs.
    pose proof (spec_max_ge zs z Hz) as Hm.
    assert (z / inject_Z (Z.of_nat (length zs))
            <= fold_right Qplus 0 zs / inject_Z (Z.of_nat (length zs))).
    { apply Qle_shift_div_l; [exact Hn|].
      assert (z / inject_Z (Z.of_nat (length zs)) * inject_Z (Z.of_nat (length zs))
              == z) as -> by (rewrite Qmult_comm; apply Qmult_div_r; Lqa.lra).
      exact Hs. }
    Lqa.lra.
Qed.

Lemma length_spec_included (row : brow) : (length (spec_included row) <= 6)%nat.
Proof.
  unfold spec_included. etransitivity; [apply length_filter|]. reflexivity.
Qed.

(** ** Anomaly results *)

Lemma anomaly_step_drivers (row : brow) (acc : list float * list AnomalyDriver)
    (m : metric) :
  mad_floored row ->
  d_metric <$> snd (anomaly_step row acc m)
  = (d_metric <$> snd acc)
    ++ (if notna (value (rec row) m) && notna (row_median row m)
           && notna (row_mad row m) && Qlt_bool 2 (spec_abs_z row m)
        then [m] else []).
Proof.
  intros Hmad. destruct acc as [zs ds]. unfold anomaly_step, spec_abs_z.
  specialize (Hmad m).
  destruct (value (rec row) m) as [v|], (row_median row m) as [md|],
    (row_mad row m) as [a|];
    cbn [isna notna negb orb andb snd]; rewrite ?app_nil_r; try reflexivity.
  specialize (Hmad a eq_refl).
  cbn [fsub fmul fdiv fabs mbind option_bind num default option_ret from_option].
  destruct (Qeq_bool ((14826 # 10000) * a) 0) eqn:E.
  { apply Qeq_bool_iff in E. Lqa.lra. }
  unfold fgt at 1. cbn [flt fabs mbind option_bind].
  destruct (Qlt_bool 2 _); cbn [snd].
  - rewrite fmap_app. reflexivity.
  - rewrite app_nil_r. reflexivity.
Qed.

Lemma anomaly_fold_drivers (row : brow) (ms : list metric)
    (acc : list float * list AnomalyDriver) :
  mad_floored row ->
  d_metric <$> snd (foldl (anomaly_step row) acc ms)
  = (d_metric <$> snd acc)
    ++ filter (fun m => notna (value (rec row) m) && notna (row_median row m)
                        && notna (row_mad row m) && Qlt_bool 2 (spec_abs_z row m)) ms.
Proof.
  intros Hmad. revert acc. induction ms as [|m ms IH]; intros acc.
  - cbn. rewrite app_nil_r. reflexivity.
  - cbn [foldl]. rewrite IH, anomaly_step_drivers by exact Hmad.
    rewrite filter_cons.
    destruct (notna (value (rec row) m) && notna (row_median row m)
              && notna (row_mad row m) && Qlt_bool 2 (spec_abs_z row m)) eqn:E.
    + rewrite decide_True by exact I. rewrite <- app_assoc. reflexivity.
    + rewrite decide_False by (intros []). rewrite app_nil_r. reflexivity.
Qed.

Lemma anomaly_step_skip (row : brow) (acc : list float * list AnomalyDriver)
    (m : metric) :
  row_median row m = nan -> anomaly_step row acc m = acc.
Proof.
  intros H. destruct acc as [zs ds]. unfold anomaly_step. rewrite H.
  destruct (value (rec row) m); reflexivity.
Qed.

Lemma spec_abs_z_nonneg (row : brow) (m : metric) : 0 <= spec_abs_z row m.
Proof. apply Qabs_nonneg. Qed.

Section AnomalyResults.

Variable format_2f : float -> string.
Variable format_1f : float -> string.

Abbreviation anomalies_of df := (compute_anomalies format_2f format_1f df).

Lemma lookup_anomalies (df : frame) (d : nat) (r : record) :
  df !! d = Some r ->
  anomalies_of df !! d
  = Some (anomaly_of_row format_2f format_1f (baseline_row df d r)).
Proof.
  intros Hr. unfold compute_anomalies.
  rewrite list_lookup_fmap, (lookup_iterrows_row df d r Hr). reflexivity.
Qed.

(** X11 (compute_anomalies) one result a day, in the order of the rows, each
    with the user id and the date of its row. *)
Theorem anomalies_one_per_day (df : frame) :
  length (anomalies_of df) = length df
  /\ forall d r, df !! d = Some r ->
       exists res, anomalies_of df !! d = Some res
                   /\ a_user_id res = user_id r /\ a_date res = date r.
Proof.
  split.
  - unfold compute_anomalies. rewrite length_fmap, length_iterrows. reflexivity.
  - intros d r Hr. eexists. split; [apply lookup_anomalies; exact Hr|].
    unfold anomaly_of_row. destruct (foldl _ _ _). split; reflexivity.
Qed.

Lemma warmup_anomaly_result (df : frame) (d : nat) (r : record) :
  df !! d = Some r ->
  (d < 7)%nat ->
  anomalies_of df !! d
  = Some {| a_user_id := user_id r; a_date := date r;
            anomaly_score := Some 0; is_anomaly := false; a_drivers := [];
            narrative := date r +:+ ": Within normal variation." |}.
Proof.
  intros Hr Hd. rewrite (lookup_anomalies df d r Hr). f_equal.
  unfold anomaly_of_row.
  assert (forall m acc, anomaly_step (baseline_row df d r) acc m = acc) as Hskip.
  { intros m acc. apply anomaly_step_skip.
    apply (warmup_cells_nan df 14 d m). cbn. lia. }
  unfold METRICS. cbn [foldl]. rewrite !Hskip. reflexivity.
Qed.

(** X12 (compute_anomalies) nothing is flagged on the first seven rows: the
    result is score 0, not anomalous, no drivers, and the narrative
    [<date>: Within normal variation.], whatever the values are. *)
Theorem no_anomaly_during_warmup (df : frame) (d : nat) (r : record) :
  df !! d = Some r ->
  (d < 7)%nat ->
  anomalies_of df !! d
  = Some {| a_user_id := user_id r; a_date := date r;
            anomaly_score := Some 0; is_anomaly := false; a_drivers := [];
            narrative := date r +:+ ": Within normal variation." |}.
Proof. apply warmup_anomaly_result. Qed.

(** X13 (compute_anomalies) the drivers of a day are, in METRICS order, exactly
    the included metrics whose robust z-score exceeds 2 in absolute value. *)
Theorem anomaly_drivers_are_large_z (df : frame) (d : nat) (r : record) :
  df !! d = Some r ->
  exists res,
    anomalies_of df !! d = Some res
    /\ d_metric <$> a_drivers res
       = filter (fun m => Qlt_bool 2 (spec_abs_z (baseline_row df d r) m))
           (spec_included (baseline_row df d r)).
Proof.
  intros Hr. eexists. split; [apply lookup_anomalies; exact Hr|].
  unfold anomaly_of_row.
  pose proof (anomaly_fold_drivers (baseline_row df d r) METRICS ([], [])
                (baseline_row_mad_floored df d r)) as H.
  destruct (foldl _ _ _) as [zs ds]. cbn [a_drivers snd fmap list_fmap app] in *.
  rewrite H. unfold spec_included. rewrite list_filter_filter.
  apply list_filter_iff. intros m. rewrite !andb_True. tauto.
Qed.

Lemma large_z_flags_day (df : frame) (d : nat) (r : record) (m : metric) :
  In m (spec_included (baseline_row df d r)) ->
  36 # 10 <= spec_abs_z (baseline_row df d r) m ->
  is_anomaly (anomaly_of_row format_2f format_1f (baseline_row df d r)) = true.
Proof.
  set (row := baseline_row df d r).
  destruct (anomaly_of_row_score format_2f format_1f row
              (baseline_row_mad_floored df d r)) as (s & _ & Hs & Hflag).
  set (zs := spec_abs_z row <$> spec_included row) in *.
  assert (forall x, In x zs -> 0 <= x) as Hnn.
  { intros x Hx. apply list_elem_of_In, list_elem_of_fmap in Hx.
    destruct Hx as (m' & -> & _). apply spec_abs_z_nonneg. }
  intros Hm Hz. apply Hflag.
  assert (In (spec_abs_z row m) zs) as Hin.
  { apply list_elem_of_In, list_elem_of_fmap. exists m.
    split; [reflexivity | apply list_elem_of_In; exact Hm]. }
  assert (zs <> []) as Hne by (intros E; rewrite E in Hin; destruct Hin).
  destruct (spec_daily_score_bounds zs Hne Hnn) as [_ Hlow].
  specialize (Hlow _ Hin).
  assert (spec_abs_z row m / 6
          <= spec_abs_z row m / inject_Z (Z.of_nat (length zs))) as Hdiv.
  { pose proof (length_spec_included row) as Hlen.
    assert (0 < inject_Z (Z.of_nat (length zs)) <= 6) as [Hpos Hle].
    { unfold zs. rewrite length_fmap.
      assert (0 < length (spec_included row))%nat as Hpos
        by (destruct (spec_included row); [destruct Hm | cbn; lia]).
      revert Hpos Hlen. generalize (length (spec_included row)).
      intros [|[|[|[|[|[|[|n]]]]]]] Hpos Hlen; try lia;
        (split; [reflexivity | discriminate]). }
    apply Qle_shift_div_l; [exact Hpos|].
    unfold Qdiv. change (/ 6) with (1 # 6).
    pose proof (spec_abs_z_nonneg row m). Lqa.nra. }
  unfold Qdiv in Hdiv at 1. change (/ 6) with (1 # 6) in Hdiv. Lqa.lra.
Qed.

(** X14 (compute_anomalies) thresholds on single metrics: a flagged day has an
    included metric with [|z| >= 1.2], and one included metric with
    [|z| >= 3.6] is enough to flag the day. *)
Theorem anomaly_flag_thresholds (df : frame) (d : nat) (r : record) :
  df !! d = Some r ->
  exists res,
    anomalies_of df !! d = Some res
    /\ (is_anomaly res = true ->
        exists m, In m (spec_included (baseline_row df d r))
                  /\ 12 # 10 <= spec_abs_z (baseline_row df d r) m)
    /\ (forall m, In m (spec_included (baseline_row df d r)) ->
          36 # 10 <= spec_abs_z (baseline_row df d r) m ->
          is_anomaly res = true).
Proof.
  intros Hr. eexists. split; [apply lookup_anomalies; exact Hr|].
  split; [|apply large_z_flags_day].
  set (row := baseline_row df d r).
  destruct (anomaly_of_row_score format_2f format_1f row
              (baseline_row_mad_floored df d r)) as (s & _ & Hs & Hflag).
  set (zs := spec_abs_z row <$> spec_included row) in *.
  assert (forall x, In x zs -> 0 <= x) as Hnn.
  { intros x Hx. apply list_elem_of_In, list_elem_of_fmap in Hx.
    destruct Hx as (m & -> & _). apply spec_abs_z_nonneg. }
  intros Hanom. apply Hflag in Hanom.
  destruct (decide (zs = [])) as [E|Hne].
  { rewrite E in Hs. cbn in Hs. Lqa.lra. }
  destruct (spec_daily_score_bounds zs Hne Hnn) as [Hup _].
  destruct (spec_max_attained zs Hne) as (z & Hz & Hmax).
  apply list_elem_of_In, list_elem_of_fmap in Hz. destruct Hz as (m & -> & Hm).
  exists m. split; [apply list_elem_of_In; exact Hm | Lqa.lra].
Qed.

(** X15 (compute_anomalies over build_robust_baseline) after a missing value in
    the window the rolling MAD is 1e-6, so a present value that deviates from
    the rolling median by 0.000006 or more flags the day. *)
Theorem missing_value_in_window_inflates_anomalies
    (df : frame) (i j : nat) (r : record) (m : metric) (v med : Q) :
  df !! S i = Some r ->
  (7 <= length (observations (window_at 14 (column m df) i)))%nat ->
  window_at 14 (column m df) i !! j = Some nan ->
  value r m = Some v ->
  row_median (baseline_row df (S i) r) m = Some med ->
  6 # 1000000 <= Qabs (v - med) ->
  exists res, anomalies_of df !! S i = Some res /\ is_anomaly res = true.
Proof.
  intros Hr Hobs Hnan Hv Hmed Hdev.
  assert (row_mad (baseline_row df (S i) r) m = Some (1 # 1000000)) as Hmad.
  { apply (mad_cell_collapse df 14 i j m);
      [apply lookup_lt_Some in Hr; exact Hr | exact Hobs | exact Hnan]. }
  eexists. split; [apply lookup_anomalies; exact Hr|].
  apply (large_z_flags_day df (S i) r m).
  - apply list_elem_of_In, list_elem_of_filter. split; [|apply elem_of_METRICS].
    change (value (rec (baseline_row df (S i) r)) m) with (value r m).
    rewrite Hv, Hmed, Hmad. exact I.
  - unfold spec_abs_z.
    change (value (rec (baseline_row df (S i) r)) m) with (value r m).
    rewrite Hv, Hmed, Hmad. cbv [num default from_option Datatypes.id].
    unfold Qdiv. rewrite Qabs_Qmult.
    change (Qabs (/ ((14826 # 10000) * (1 # 1000000)))) with (10000000000 # 14826).
    Lqa.lra.
Qed.

End AnomalyResults.

(** ** The simulator, cell by cell *)

(** A loop whose body keeps an invariant of the processed prefix. *)
Lemma for_each_invariant {A : Type} (I : list A -> gmap loc frame -> Prop)
    (xs : list A) (body : A -> M unit) (pre : list A) (σ : gmap loc frame) :
  I pre σ ->
  (forall pre' x σ1, I pre' σ1 -> In x xs ->
     exists σ2, body x σ1 = (Returns tt, σ2) /\ I (pre' ++ [x]) σ2) ->
  exists σ', for_each xs body σ = (Returns tt, σ') /\ I (pre ++ xs) σ'.
Proof.
  revert pre σ. induction xs as [|x xs IH]; intros pre σ HI Hstep.
  - exists σ. rewrite app_nil_r. split; [reflexivity | exact HI].
  - destruct (Hstep pre x σ HI (or_introl eq_refl)) as (σ1 & Hb & HI1).
    destruct (IH (pre ++ [x]) σ1 HI1) as (σ' & Hrun & HI').
    { intros pre' y σ2 H2 Hy. apply Hstep; [exact H2 | right; exact Hy]. }
    exists σ'. split.
    + cbn [for_each]. rewrite (bind_returns _ _ σ tt σ1 Hb). exact Hrun.
    + rewrite <- app_assoc in HI'. exact HI'.
Qed.

Lemma cells_perturbed_iff g f mode (done done' : metric -> nat -> Prop) f' :
  (forall m i, done m i <-> done' m i) ->
  cells_perturbed g f mode done f' -> cells_perturbed g f mode done' f'.
Proof.
  intros Hiff [Hlen Hcells]. split; [exact Hlen|].
  intros i r Hr. destruct (Hcells i r Hr) as (r' & Hr' & Hu & Hd & Hv).
  exists r'. repeat split; try assumption.
  - intros H. apply Hv, Hiff, H.
  - intros H. apply Hv. intros H'. apply H, Hiff, H'.
Qed.

Lemma cells_perturbed_start g f mode :
  cells_perturbed g f mode (fun _ _ => False) f.
Proof.
  split; [reflexivity|]. intros i r Hr. exists r.
  repeat split; try assumption; tauto.
Qed.

Lemma frame_cell_lookup (f : frame) (i : nat) (r : record) (m : metric) :
  f !! i = Some r -> frame_cell f i m = value r m.
Proof. intros H. unfold frame_cell. rewrite H. reflexivity. Qed.

(** Writing the simulated value into cell [(m, idx)]. *)
Lemma cells_perturbed_write g f mode (done : metric -> nat -> Prop) f' m idx :
  cells_perturbed g f mode done f' ->
  cells_perturbed g f mode (fun m' i => done m' i \/ (m' = m /\ i = idx))
    (alter (set_value m (perturbed_value g f mode m idx)) idx f').
Proof.
  intros [Hlen Hcells]. unfold frame in *.
  split; [rewrite length_alter; exact Hlen|].
  intros i r Hr. destruct (Hcells i r Hr) as (r' & Hr' & Hu & Hd & Hv).
  destruct (decide (i = idx)) as [->|Hne].
  - exists (set_value m (perturbed_value g f mode m idx) r').
    split; [unfold frame in *; rewrite list_lookup_alter_eq, Hr'; reflexivity|].
    split; [exact Hu|]. split; [exact Hd|].
    intros m'. cbn [value set_value]. destruct (decide (m' = m)) as [->|Hm].
    + split; [reflexivity | intros H; exfalso; apply H; right; tauto].
    + split.
      * intros [H|[H _]]; [apply Hv, H | congruence].
      * intros H. apply Hv. intros H'. apply H. left. exact H'.
  - exists r'.
    split; [unfold frame in *; rewrite list_lookup_alter_ne by congruence; exact Hr'|].
    split; [exact Hu|]. split; [exact Hd|].
    intros m'. split.
    + intros [H|[_ H]]; [apply Hv, H | congruence].
    + intros H. apply Hv. intros H'. apply H. left. exact H'.
Qed.

(** Leaving cell [(m, idx)] alone, where the simulated value is the
    original one. *)
Lemma cells_perturbed_keep g f mode (done : metric -> nat -> Prop) f' m idx :
  (forall r, f !! idx = Some r -> perturbed_value g f mode m idx = value r m) ->
  (done m idx \/ ~ done m idx) ->
  cells_perturbed g f mode done f' ->
  cells_perturbed g f mode (fun m' i => done m' i \/ (m' = m /\ i = idx)) f'.
Proof.
  intros Hpv Hdec [Hlen Hcells]. split; [exact Hlen|].
  intros i r Hr. destruct (Hcells i r Hr) as (r' & Hr' & Hu & Hd & Hv).
  exists r'. repeat split; try assumption.
  - intros [H|[-> ->]]; [apply Hv, H|].
    destruct Hdec as [H|H]; [apply Hv, H|].
    rewrite (Hpv r Hr). apply Hv, H.
  - intros H. apply Hv. intros H'. apply H. left. exact H'.
Qed.

Lemma frame_at_returns (l : loc) (f : frame) (idx : nat) (r : record)
    (m : metric) (σ : gmap loc frame) :
  σ !! l = Some f -> f !! idx = Some r ->
  frame_at l idx m σ = (Returns (value r m), σ).
Proof.
  intros Hl Hr. unfold frame_at.
  rewrite (bind_returns _ _ σ f σ (deref_returns l f σ Hl)). rewrite Hr.
  reflexivity.
Qed.

Lemma frame_set_at_returns (l : loc) (f : frame) (idx : nat) (m : metric)
    (v : float) (σ : gmap loc frame) :
  σ !! l = Some f ->
  frame_set_at l idx m v σ = (Returns tt, <[l := alter (set_value m v) idx f]> σ).
Proof.
  intros Hl. unfold frame_set_at.
  rewrite (bind_returns _ _ σ f σ (deref_returns l f σ Hl)). reflexivity.
Qed.

(** One pass of the inner loop body writes the simulated value of its cell,
    or leaves the cell alone where that value is the original one. *)
Lemma perturb_cell_step g (σ : gmap loc frame) df p (f f' : frame) mode m idx
    (done : metric -> nat -> Prop) :
  σ !! df = Some f -> σ !! p = Some f' ->
  (idx < length f)%nat ->
  (done m idx \/ ~ done m idx) ->
  cells_perturbed g f mode done f' ->
  exists f'',
    perturb_cell g df p mode m idx σ = (Returns tt, <[p := f'']> σ)
    /\ cells_perturbed g f mode (fun m' i => done m' i \/ (m' = m /\ i = idx)) f''.
Proof.
  intros Hdf Hp Hidx Hdec Hinv.
  destruct (lookup_lt_is_Some_2 f idx Hidx) as [r Hr].
  destruct (lookup_lt_is_Some_2 f (Nat.max 0 (idx - 3))) as [rs Hrs]; [lia|].
  pose proof (cells_perturbed_write g f mode done f' m idx Hinv) as Hwrite.
  assert (forall v, perturbed_value g f mode m idx = v ->
            frame_set_at p idx m v σ
            = (Returns tt, <[p := alter (set_value m v) idx f']> σ)
            /\ cells_perturbed g f mode
                 (fun m' i => done m' i \/ (m' = m /\ i = idx))
                 (alter (set_value m v) idx f')) as Hset.
  { intros v <-. split; [apply frame_set_at_returns; exact Hp | exact Hwrite]. }
  assert (perturbed_value g f mode m idx = value r m ->
          exists f'', (Returns tt, σ) = (Returns tt, <[p := f'']> σ)
            /\ cells_perturbed g f mode
                 (fun m' i => done m' i \/ (m' = m /\ i = idx)) f'') as Hkeep.
  { intros Hpv. exists f'. split; [rewrite insert_id by exact Hp; reflexivity|].
    apply cells_perturbed_keep; [|exact Hdec | exact Hinv].
    intros r0 Hr0. unfold frame in *. rewrite Hr in Hr0.
    injection Hr0 as <-. exact Hpv. }
  unfold perturb_cell. unfold perturbed_value in Hset, Hkeep.
  rewrite (frame_cell_lookup f idx r m Hr) in Hset, Hkeep.
  rewrite (frame_cell_lookup f _ rs m Hrs) in Hset, Hkeep.
  destruct (String.eqb mode "missing").
  { eexists. apply Hset. reflexivity. }
  destruct (String.eqb mode "delay").
  { rewrite (bind_returns _ _ σ _ σ (frame_at_returns df f _ rs m σ Hdf Hrs)).
    eexists. apply Hset. reflexivity. }
  destruct (String.eqb mode "spoof").
  { rewrite (bind_returns _ _ σ _ σ (frame_at_returns df f _ r m σ Hdf Hr)).
    destruct (notna (value r m)).
    - eexists. apply Hset. reflexivity.
    - apply Hkeep. reflexivity. }
  destruct (String.eqb mode "noise").
  { rewrite (bind_returns _ _ σ _ σ (frame_at_returns df f _ r m σ Hdf Hr)).
    destruct (value r m) as [v|].
    - eexists. apply Hset. reflexivity.
    - apply Hkeep. reflexivity. }
  apply Hkeep. reflexivity.
Qed.

Lemma cells_of_dec sel ms m i : cells_of sel ms m i \/ ~ cells_of sel ms m i.
Proof.
  unfold cells_of.
  pose proof (list_elem_of_In ms m) as E1.
  pose proof (list_elem_of_In (sel m) i) as E2.
  destruct (decide (m ∈ ms)) as [H1|H1], (decide (i ∈ sel m)) as [H2|H2]; tauto.
Qed.

(** The inner loop over the indices selected for one metric. *)
Lemma inner_loop_cells g (σ : gmap loc frame) df p (f f0 : frame) mode
    (sel : metric -> list nat) (pre : list metric) (m : metric) :
  σ !! df = Some f -> p <> df ->
  (forall idx, In idx (sel m) -> (idx < length f)%nat) ->
  cells_perturbed g f mode (cells_of sel pre) f0 ->
  exists f1,
    for_each (sel m) (fun idx => perturb_cell g df p mode m idx) (<[p := f0]> σ)
    = (Returns tt, <[p := f1]> σ)
    /\ cells_perturbed g f mode (cells_of sel (pre ++ [m])) f1.
Proof.
  intros Hdf Hne Hrange Hinv.
  destruct (for_each_invariant
              (fun done σ1 =>
                 exists f1, σ1 = <[p := f1]> σ
                   /\ cells_perturbed g f mode
                        (fun m' i => cells_of sel pre m' i
                                     \/ (m' = m /\ In i done)) f1)
              (sel m) (fun idx => perturb_cell g df p mode m idx) []
              (<[p := f0]> σ)) as (σ' & Hrun & f1 & -> & Hfin).
  - exists f0. split; [reflexivity|].
    eapply cells_perturbed_iff; [|exact Hinv]. intros m' i. cbn. tauto.
  - intros done idx σ1 (f1 & -> & Hinv1) Hidx.
    destruct (perturb_cell_step g (<[p := f1]> σ) df p f f1 mode m idx
                (fun m' i => cells_of sel pre m' i \/ (m' = m /\ In i done)))
      as (f2 & Hstep & Hinv2).
    + rewrite lookup_insert_ne by exact Hne. exact Hdf.
    + apply lookup_insert_eq.
    + apply Hrange, Hidx.
    + pose proof (list_elem_of_In done idx) as E.
      destruct (cells_of_dec sel pre m idx) as [H|H],
        (decide (idx ∈ done)) as [H'|H']; tauto.
    + exact Hinv1.
    + exists (<[p := f2]> σ). split.
      * rewrite Hstep, insert_insert_eq. reflexivity.
      * exists f2. split; [reflexivity|].
        eapply cells_perturbed_iff; [|exact Hinv2].
        intros m' i. cbn. rewrite in_app_iff. cbn. intuition congruence.
  - exists f1. split; [exact Hrun|].
    eapply cells_perturbed_iff; [|exact Hfin].
    intros m' i. unfold cells_of. cbn. rewrite in_app_iff. cbn.
    split.
    + intros [[H1 H2]|[-> H]]; tauto.
    + intros [[H1|[<-|[]]] H2]; tauto.
Qed.

Lemma selected_in_range g n fraction m idx :
  (py_int (inject_Z (Z.of_nat n) * fraction) <= Z.of_nat n)%Z ->
  sample_in_range g n -> In idx (selected_indices g n fraction m) -> (idx < n)%nat.
Proof.
  intros Hn Hg. unfold selected_indices.
  destruct (_ <? _)%Z; [apply Hg; lia | intros []].
Qed.

(** Drawing the indices of one metric, when the sample fits the frame. *)
Lemma draw_indices_returns g n fraction m (σ : gmap loc frame) :
  (py_int (inject_Z (Z.of_nat n) * fraction) <= Z.of_nat n)%Z ->
  (if (0 <? py_int (inject_Z (Z.of_nat n) * fraction))%Z
   then random_sample g m n (Z.to_nat (py_int (inject_Z (Z.of_nat n) * fraction)))
   else mret []) σ
  = (Returns (selected_indices g n fraction m), σ).
Proof.
  intros Hn. unfold selected_indices. destruct (_ <? _)%Z eqn:E; [|reflexivity].
  unfold random_sample.
  replace (n <? _)%nat with false by (symmetry; apply Nat.ltb_ge; lia).
  reflexivity.
Qed.

(** The whole simulation, for a sample that fits the frame. *)
Lemma simulate_attack_cells_aux g (σ : gmap loc frame) df (f : frame) mode fraction :
  σ !! df = Some f ->
  (py_int (inject_Z (Z.of_nat (length f)) * fraction) <= Z.of_nat (length f))%Z ->
  sample_in_range g (length f) ->
  exists f',
    simulate_attack g df mode fraction σ
    = (Returns (fresh (dom σ)), <[fresh (dom σ) := f']> σ)
    /\ cells_perturbed g f mode
         (fun m i => In i (selected_indices g (length f) fraction m)) f'.
Proof.
  intros Hdf Hn Hg. destruct (fresh_not_used df f σ Hdf) as [Hne Hfresh].
  set (p := fresh (dom σ)) in *.
  set (sel := selected_indices g (length f) fraction).
  assert (<[p := f]> σ !! df = Some f) as Hdf'
    by (rewrite lookup_insert_ne by exact Hne; exact Hdf).
  destruct (for_each_invariant
              (fun pre σ1 =>
                 exists f1, σ1 = <[p := f1]> σ
                   /\ cells_perturbed g f mode (cells_of sel pre) f1)
              METRICS
              (fun m =>
                 let n_vals := py_int (inject_Z (Z.of_nat (length f)) * fraction) in
                 (if (0 <? n_vals)%Z
                  then random_sample g m (length f) (Z.to_nat n_vals)
                  else mret []) ≫= fun indices =>
                 for_each indices (fun idx => perturb_cell g df p mode m idx))
              [] (<[p := f]> σ)) as (σ' & Hrun & f' & -> & Hfin).
  - exists f. split; [reflexivity|].
    eapply cells_perturbed_iff; [|apply cells_perturbed_start].
    intros m i. unfold cells_of. cbn. tauto.
  - intros pre m σ1 (f1 & -> & Hinv) _.
    destruct (inner_loop_cells g σ df p f f1 mode sel pre m Hdf Hne)
      as (f2 & Hloop & Hinv2); [|exact Hinv|].
    { intros idx. apply selected_in_range; [exact Hn | exact Hg]. }
    exists (<[p := f2]> σ). split; [|exists f2; split; [reflexivity | exact Hinv2]].
    cbv zeta.
    rewrite (bind_returns _ _ _ _ _
               (draw_indices_returns g (length f) fraction m _ Hn)).
    exact Hloop.
  - exists f'. split.
    + unfold simulate_attack.
      rewrite (bind_returns _ _ _ _ _ (frame_copy_returns df f σ Hdf)).
      fold p.
      rewrite (bind_returns _ _ _ _ _ (frame_len_returns df f _ Hdf')).
      rewrite (bind_returns _ _ _ tt (<[p := f']> σ) Hrun). reflexivity.
    + eapply cells_perturbed_iff; [|exact Hfin].
      intros m i. unfold cells_of, sel. cbn.
      pose proof (elem_of_METRICS m) as Hm. rewrite list_elem_of_In in Hm. tauto.
Qed.


(** X17 (simulate_attack) a fraction that asks for more cells than the frame
    has rows raises [ValueError] at the first metric; the input frame is
    untouched, the copy already allocated. *)
Theorem simulate_attack_oversized_sample_raises
    (g : rng) (σ : gmap loc frame) (df : loc) (f : frame)
    (mode : string) (fraction : Q) :
  σ !! df = Some f ->
  (Z.of_nat (length f) < py_int (inject_Z (Z.of_nat (length f)) * fraction))%Z ->
  simulate_attack g df mode fraction σ
  = (Raises ValueError, <[fresh (dom σ) := f]> σ)
  /\ <[fresh (dom σ) := f]> σ !! df = Some f.
Proof.
  intros Hdf Hn. destruct (fresh_not_used df f σ Hdf) as [Hne Hfresh].
  assert (<[fresh (dom σ) := f]> σ !! df = Some f) as Hdf'
    by (rewrite lookup_insert_ne by exact Hne; exact Hdf).
  split; [|exact Hdf'].
  unfold simulate_attack.
  rewrite (bind_returns _ _ _ _ _ (frame_copy_returns df f σ Hdf)).
  rewrite (bind_returns _ _ _ _ _ (frame_len_returns df f _ Hdf')).
  apply bind_raises. unfold METRICS. cbn [for_each].
  apply bind_raises. apply bind_raises.
  replace (0 <? _)%Z with true by (symmetry; apply Z.ltb_lt; lia).
  unfold random_sample.
  replace (length f <? _)%nat with true by (symmetry; apply Nat.ltb_lt; lia).
  reflexivity.
Qed.

Lemma py_int_below_one (x : Q) : x < 1 -> (py_int x <= 0)%Z.
Proof.
  intros Hx. unfold py_int. destruct (Qle_bool 0 x) eqn:E.
  - assert (Qfloor x < 1)%Z; [|lia].
    rewrite Zlt_Qlt. pose proof (Qfloor_le x). change (inject_Z 1) with 1. Lqa.lra.
  - assert (x <= 0) as Hneg.
    { destruct (Qlt_le_dec 0 x) as [H|H]; [|exact H].
      apply Qlt_le_weak, Qle_bool_iff in H. congruence. }
    apply Qceiling_resp_le in Hneg. exact Hneg.
Qed.

(** X18 (simulate_attack) when [n_rows * fraction] is at most
    [1 - 2^-53], the largest binary64 number below 1, nothing is perturbed:
    the result is a plain copy of the input, in every mode.  At or below
    that bound the rounded product the code truncates is below 1 as well. *)
Theorem simulate_attack_small_series_noop
    (g : rng) (σ : gmap loc frame) (df : loc) (f : frame)
    (mode : string) (fraction : Q) :
  σ !! df = Some f ->
  inject_Z (Z.of_nat (length f)) * fraction <= 1 - (1 # 9007199254740992) ->
  simulate_attack g df mode fraction σ
  = (Returns (fresh (dom σ)), <[fresh (dom σ) := f]> σ).
Proof.
  intros Hdf Hbelow.
  assert (inject_Z (Z.of_nat (length f)) * fraction < 1) as Hsmall
    by (apply Qle_lt_trans with (1 - (1 # 9007199254740992));
        [exact Hbelow | reflexivity]).
  destruct (fresh_not_used df f σ Hdf) as [Hne Hfresh].
  assert (<[fresh (dom σ) := f]> σ !! df = Some f) as Hdf'
    by (rewrite lookup_insert_ne by exact Hne; exact Hdf).
  pose proof (py_int_below_one _ Hsmall) as Hn.
  unfold simulate_attack.
  rewrite (bind_returns _ _ _ _ _ (frame_copy_returns df f σ Hdf)).
  rewrite (bind_returns _ _ _ _ _ (frame_len_returns df f _ Hdf')).
  rewrite (bind_returns _ _ _ tt (<[fresh (dom σ) := f]> σ)); [reflexivity|].
  apply for_each_skip. intros m σ'.
  replace (0 <? _)%Z with false by (symmetry; apply Z.ltb_ge; exact Hn).
  rewrite (bind_returns _ _ σ' [] σ') by reflexivity. reflexivity.
Qed.

Lemma simulate_attack_small_series_noop_witness :
  simulate_attack first_indices 0%nat "missing" (1 # 10)
    {[ 0%nat := take 9 steps_series ]}
  = (Returns (fresh (dom ({[ 0%nat := take 9 steps_series ]} : gmap loc frame))),
     <[fresh (dom ({[ 0%nat := take 9 steps_series ]} : gmap loc frame))
         := take 9 steps_series]> {[ 0%nat := take 9 steps_series ]}).
Proof.
  apply (simulate_attack_small_series_noop first_indices
           {[ 0%nat := take 9 steps_series ]} 0%nat (take 9 steps_series)
           "missing" (1 # 10)).
  - reflexivity.
  - vm_compute. discriminate.
Defined.

Lemma simulate_attack_oversized_sample_raises_witness :
  simulate_attack first_indices 0%nat "missing" (3 # 2) {[ 0%nat := steps_series ]}
  = (Raises ValueError,
     <[fresh (dom ({[ 0%nat := steps_series ]} : gmap loc frame))
         := steps_series]> {[ 0%nat := steps_series ]})
  /\ <[fresh (dom ({[ 0%nat := steps_series ]} : gmap loc frame))
         := steps_series]> ({[ 0%nat := steps_series ]} : gmap loc frame) !! 0%nat
     = Some steps_series.
Proof.
  apply (simulate_attack_oversized_sample_raises first_indices
           {[ 0%nat := steps_series ]} 0%nat steps_series "missing" (3 # 2)).
  - reflexivity.
  - vm_compute. reflexivity.
Defined.

Lemma first_indices_in_range (n : nat) : sample_in_range first_indices n.
Proof.
  intros m n_vals idx Hle Hin. cbn in Hin. apply in_seq in Hin. lia.
Qed.


(** X20 (simulate_attack) modes [spoof] and [noise] neither add nor remove
    missing values: a cell of the result is NaN exactly when it was NaN in the
    input. *)
Theorem spoof_and_noise_keep_missingness
    (g : rng) (σ : gmap loc frame) (df : loc) (f : frame)
    (mode : string) (fraction : Q) :
  mode = "spoof"%string \/ mode = "noise"%string ->
  σ !! df = Some f ->
  fraction <= 1 ->
  sample_in_range g (length f) ->
  exists perturbed f',
    simulate_attack g df mode fraction σ
    = (Returns perturbed, <[perturbed := f']> σ)
    /\ forall i r, f !! i = Some r ->
         exists r', f' !! i = Some r'
           /\ forall m, isna (value r' m) = isna (value r m).
Proof.
  intros Hmode Hdf Hfr Hg.
  destruct (simulate_attack_cells_aux g σ df f mode fraction Hdf
              (py_int_fraction_le (length f) fraction Hfr) Hg)
    as (f' & Hrun & Hlen & Hcells).
  exists (fresh (dom σ)), f'. split; [exact Hrun|].
  intros i r Hr. destruct (Hcells i r Hr) as (r' & Hr' & _ & _ & Hv).
  exists r'. split; [exact Hr'|]. intros m. destruct (Hv m) as [H1 H2].
  pose proof (list_elem_of_In (selected_indices g (length f) fraction m) i) as E.
  destruct (decide (i ∈ selected_indices g (length f) fraction m)) as [H|H].
  - rewrite (H1 (proj1 E H)). unfold perturbed_value.
    rewrite (frame_cell_lookup f i r m Hr).
    destruct Hmode as [-> | ->]; cbn [String.eqb Ascii.eqb Bool.eqb andb];
      destruct (value r m); reflexivity.
  - rewrite (H2 (fun H' => H (proj2 E H'))). reflexivity.
Qed.

(** X21 (SimulationRequest, simulate_attack) a request the schema accepts
    carries one of the four modes and a fraction of [0, 1], and the simulator
    run on its mode and fraction returns a frame of the input's length. *)
Theorem accepted_request_never_raises
    (g : rng) (σ : gmap loc frame) (df : loc) (f : frame)
    (user_id mode : string) (fraction : option Q) (req : SimulationRequest) :
  parse_SimulationRequest user_id mode fraction = Some req ->
  σ !! df = Some f ->
  sample_in_range g (length f) ->
  (sr_mode req = "missing"%string \/ sr_mode req = "delay"%string
   \/ sr_mode req = "spoof"%string \/ sr_mode req = "noise"%string)
  /\ 0 <= sr_fraction req <= 1
  /\ exists perturbed f',
       simulate_attack g df (sr_mode req) (sr_fraction req) σ
       = (Returns perturbed, <[perturbed := f']> σ)
       /\ length f' = length f.
Proof.
  intros Hparse Hdf Hg. unfold parse_SimulationRequest in Hparse.
  destruct (mode_pattern mode) eqn:Emode; [|discriminate].
  destruct (Qle_bool 0 (default (1 # 10) fraction)) eqn:E0; [|discriminate].
  destruct (Qle_bool (default (1 # 10) fraction) 1) eqn:E1; [|discriminate].
  injection Hparse as <-. cbn [sr_mode sr_fraction].
  apply Qle_bool_iff in E0, E1. apply mode_pattern_true in Emode.
  split; [exact Emode|]. split; [split; assumption|].
  destruct (simulate_attack_cells_aux g σ df f mode (default (1 # 10) fraction) Hdf
              (py_int_fraction_le (length f) _ E1) Hg)
    as (f' & Hrun & Hlen & _).
  exists (fresh (dom σ)), f'. split; [exact Hrun | exact Hlen].
Qed.



Lemma spoof_and_noise_keep_missingness_witness :
  exists perturbed f',
    simulate_attack first_indices 0%nat "spoof" 1 {[ 0%nat := steps_series ]}
    = (Returns perturbed, <[perturbed := f']> {[ 0%nat := steps_series ]})
    /\ forall i r, steps_series !! i = Some r ->
         exists r', f' !! i = Some r'
           /\ forall m, isna (value r' m) = isna (value r m).
Proof.
  apply (spoof_and_noise_keep_missingness first_indices
           {[ 0%nat := steps_series ]} 0%nat steps_series "spoof" 1).
  - left. reflexivity.
  - reflexivity.
  - discriminate.
  - apply first_indices_in_range.
Defined.

Lemma accepted_request_never_raises_witness :
  ("noise"%string = "missing"%string \/ "noise"%string = "delay"%string
   \/ "noise"%string = "spoof"%string \/ "noise"%string = "noise"%string)
  /\ 0 <= 1 # 10 <= 1
  /\ exists perturbed f',
       simulate_attack first_indices 0%nat "noise" (1 # 10)
         {[ 0%nat := steps_series ]}
       = (Returns perturbed, <[perturbed := f']> {[ 0%nat := steps_series ]})
       /\ length f' = length steps_series.
Proof.
  apply (accepted_request_never_raises first_indices {[ 0%nat := steps_series ]}
           0%nat steps_series "u1" "noise" None
           {| sr_user_id := "u1"; sr_mode := "noise"; sr_fraction := 1 # 10 |}).
  - reflexivity.
  - reflexivity.
  - apply first_indices_in_range.
Defined.

(** ** The federated score, for every pair of series *)

Section FederatedBounds.
Local Open Scope R_scope.

Lemma np_dot_nil_r (u : list R) : np_dot u [] = 0.
Proof. destruct u; reflexivity. Qed.

(** Cauchy-Schwarz for the truncating dot product. *)
Lemma np_dot_cauchy_schwarz (u g : list R) :
  np_dot u g * np_dot u g <= np_dot u u * np_dot g g.
Proof.
  revert g. induction u as [|x u IH]; intros g.
  - cbn. lra.
  - destruct g as [|y g].
    + rewrite np_dot_nil_r. change (np_dot [] []) with 0. lra.
    + rewrite !np_dot_cons. specialize (IH g).
      pose proof (np_dot_self_nonneg u) as HU.
      pose proof (np_dot_self_nonneg g) as HG.
      set (D := np_dot u g) in *. set (U := np_dot u u) in *.
      set (G := np_dot g g) in *.
      assert (2 * (x * y * D) <= x * x * G + y * y * U) as Hmix.
      { destruct (Rle_lt_dec (2 * (x * y * D)) (x * x * G + y * y * U))
          as [H|H]; [exact H|exfalso].
        pose proof (Rle_0_sqr (x * x * G - y * y * U)) as H1. unfold Rsqr in H1.
        assert (0 <= x * x * (y * y) * (U * G - D * D)) as H2.
        { apply Rmult_le_pos; [|lra].
          apply Rmult_le_pos; apply Rle_0_sqr. }
        assert (0 <= x * x * G + y * y * U) as H3.
        { pose proof (Rle_0_sqr x) as Hx. pose proof (Rle_0_sqr y) as Hy.
          unfold Rsqr in Hx, Hy. nra. }
        nra. }
      nra.
Qed.

Lemma np_dot_abs_le_norms (u g : list R) :
  - (np_norm u * np_norm g) <= np_dot u g <= np_norm u * np_norm g.
Proof.
  pose proof (np_dot_cauchy_schwarz u g) as Hcs.
  pose proof (np_norm_sqr u) as Hu. pose proof (np_norm_sqr g) as Hg.
  assert (0 <= np_norm u) as Hu0 by apply sqrt_pos.
  assert (0 <= np_norm g) as Hg0 by apply sqrt_pos.
  rewrite <- Hu, <- Hg in Hcs.
  set (a := np_norm u) in *. set (b := np_norm g) in *.
  set (D := np_dot u g) in *.
  assert (0 <= a * b) as Hab by (apply Rmult_le_pos; assumption).
  assert (D * D <= (a * b) * (a * b)) as Hsq by nra.
  split; nra.
Qed.

Lemma score_of_embeddings_open (u g : list R) :
  0 < score_of_embeddings u g < 1.
Proof.
  unfold score_of_embeddings.
  destruct (np_dot_abs_le_norms u g) as [Hlo Hhi].
  assert (0 <= np_norm u * np_norm g) as HN
    by (apply Rmult_le_pos; apply sqrt_pos).
  set (N := np_norm u * np_norm g) in *. set (D := np_dot u g) in *.
  assert (0 < / (N + / 100000000)) as Hinv by (apply Rinv_0_lt_compat; lra).
  assert (/ (N + / 100000000) * (N + / 100000000) = 1) as Hone by (field; lra).
  assert (-1 < D / (N + / 100000000) < 1) as [Hs1 Hs2].
  { unfold Rdiv. split; nra. }
  rewrite Rmin_left by lra. rewrite Rmax_right by lra. lra.
Qed.

(** X22 (compute_federated_trust_score) the federated score of any two series
    lies strictly between 0 and 1: by Cauchy-Schwarz and the guard [1e-8] in
    the denominator the similarity never reaches -1 or 1. *)
Theorem federated_trust_strictly_inside (user_df global_df : frame) :
  0 < compute_federated_trust_score user_df global_df < 1.
Proof. rewrite federated_score_unfold. apply score_of_embeddings_open. Qed.

Lemma np_dot_zero_l (u g : list R) :
  (forall x, In x u -> x = 0) -> np_dot u g = 0.
Proof.
  revert g. induction u as [|x u IH]; intros g H; [reflexivity|].
  destruct g as [|y g]; [reflexivity|].
  rewrite np_dot_cons, (H x (or_introl eq_refl)), IH; [lra|].
  intros z Hz. apply H. right. exact Hz.
Qed.

Lemma embedding_zero (df : frame) :
  (forall q, In q (metric_means df) -> (q == 0)%Q) ->
  forall x, In x (_compute_embedding df) -> x = 0.
Proof.
  intros H x Hx. unfold _compute_embedding in Hx.
  apply list_elem_of_In, list_elem_of_fmap in Hx. destruct Hx as (y & -> & Hy).
  apply list_elem_of_fmap in Hy. destruct Hy as (q & -> & Hq).
  apply list_elem_of_In in Hq. rewrite (Qeq_eqR _ _ (H q Hq)), RMicromega.Q2R_0.
  unfold Rdiv. ring.
Qed.

(** X23 (compute_federated_trust_score) a user series whose metric means are
    all 0 (no observation at all, for instance) scores exactly 1/2 against
    every cohort. *)
Theorem federated_trust_of_blank_series (user_df global_df : frame) :
  (forall q, In q (metric_means user_df) -> (q == 0)%Q) ->
  compute_federated_trust_score user_df global_df = 1 / 2.
Proof.
  intros H. rewrite federated_score_unfold. unfold score_of_embeddings.
  rewrite (np_dot_zero_l _ _ (embedding_zero user_df H)).
  unfold Rdiv at 2. rewrite Rmult_0_l.
  rewrite Rmin_left by lra. rewrite Rmax_right by lra. lra.
Qed.

Lemma federated_trust_of_blank_series_witness :
  compute_federated_trust_score [] fed_user = 1 / 2.
Proof.
  apply (federated_trust_of_blank_series [] fed_user).
  intros q Hq. vm_compute in Hq.
  repeat (destruct Hq as [<-|Hq]; [reflexivity|]). destruct Hq.
Defined.

End FederatedBounds.

(** ** Security metrics *)

Lemma floats_are_numbers (P : Q -> Prop) (xs : list float) :
  Forall (fun x => exists q, x = Some q /\ P q) xs ->
  exists qs, xs = Some <$> qs /\ Forall P qs.
Proof.
  induction 1 as [|x xs (q & -> & Hq) _ (qs & -> & Hqs)].
  - exists []. split; [reflexivity | constructor].
  - exists (q :: qs). split; [reflexivity | constructor; assumption].
Qed.

Lemma spec_mean_between (qs : list Q) (lo hi : Q) :
  qs <> [] -> Forall (fun q => lo <= q <= hi) qs ->
  lo <= spec_mean qs <= hi.
Proof.
  intros Hne Hall. unfold spec_mean.
  assert (0 < inject_Z (Z.of_nat (length qs))) as Hn.
  { destruct qs; [congruence|]. unfold Qlt. cbn. lia. }
  assert (inject_Z (Z.of_nat (length qs)) * lo <= fold_right Qplus 0 qs
          <= inject_Z (Z.of_nat (length qs)) * hi) as [Hlo Hhi].
  { clear Hne Hn. induction Hall as [|q qs [Hq1 Hq2] _ [IH1 IH2]].
    - cbn [fold_right length]. change (inject_Z (Z.of_nat 0)) with 0. Lqa.lra.
    - cbn [fold_right length].
      rewrite Nat2Z.inj_succ, <- Z.add_1_r, inject_Z_plus.
      change (inject_Z 1) with 1. Lqa.lra. }
  split.
  - apply Qle_shift_div_l; [exact Hn | Lqa.lra].
  - apply Qle_shift_div_r; [exact Hn | Lqa.lra].
Qed.

(** The mean of numbers of an interval is a number of the interval. *)
Lemma np_mean_between (xs : list float) (lo hi : Q) :
  xs <> [] ->
  Forall (fun x => exists q, x = Some q /\ lo <= q <= hi) xs ->
  exists s, np_mean xs = Some s /\ lo <= s <= hi.
Proof.
  intros Hne Hall. destruct (floats_are_numbers _ xs Hall) as (qs & -> & Hqs).
  assert (qs <> []) as Hne' by (intros ->; apply Hne; reflexivity).
  destruct (np_mean_numbers qs Hne') as (s & Hs & Heq).
  exists s. split; [exact Hs|]. rewrite Heq. apply spec_mean_between; assumption.
Qed.

Lemma ratio_in_unit (a b : nat) :
  (0 < b)%nat -> (a <= b)%nat ->
  exists q, fdiv (float_of_nat a) (float_of_nat b) = Some q /\ 0 <= q <= 1.
Proof.
  intros Hb Hab. unfold float_of_nat. cbn [fdiv mbind option_bind].
  assert (0 < inject_Z (Z.of_nat b)) as Hpos by (unfold Qlt; cbn; lia).
  assert (0 <= inject_Z (Z.of_nat a) <= inject_Z (Z.of_nat b)) as [Ha0 Hale]
    by (unfold Qle; cbn; lia).
  destruct (Qeq_bool (inject_Z (Z.of_nat b)) 0) eqn:E.
  { apply Qeq_bool_iff in E. Lqa.lra. }
  eexists. split; [reflexivity|]. split.
  - apply Qle_shift_div_l; [exact Hpos | Lqa.lra].
  - apply Qle_shift_div_r; [exact Hpos | Lqa.lra].
Qed.

Lemma filter_none {A : Type} (P : A -> Prop) `{forall x, Decision (P x)}
    (l : list A) :
  (forall x, In x l -> ~ P x) -> filter P l = [].
Proof.
  induction l as [|x l IH]; intros Hnone; [reflexivity|].
  rewrite filter_cons, decide_False by (apply Hnone; left; reflexivity).
  apply IH. intros y Hy. apply Hnone. right. exact Hy.
Qed.


Lemma mean_or_default_between (xs : list float) (lo hi d : Q) :
  lo <= d <= hi ->
  Forall (fun x => exists q, x = Some q /\ lo <= q <= hi) xs ->
  exists s,
    match xs return float with [] => Some d | _ => np_mean xs end = Some s
    /\ lo <= s <= hi.
Proof.
  intros Hd Hall. destruct xs as [|x xs].
  - exists d. split; [reflexivity | exact Hd].
  - apply np_mean_between; [discriminate | exact Hall].
Qed.


Lemma np_mean_nonneg (xs : list float) :
  xs <> [] ->
  Forall (fun x => exists q, x = Some q /\ 0 <= q) xs ->
  exists s, np_mean xs = Some s /\ 0 <= s.
Proof.
  intros Hne Hall. destruct (floats_are_numbers _ xs Hall) as (qs & -> & Hqs).
  assert (qs <> []) as Hne' by (intros ->; apply Hne; reflexivity).
  destruct (np_mean_numbers qs Hne') as (s & Hs & Heq).
  exists s. split; [exact Hs|]. rewrite Heq. unfold spec_mean.
  assert (0 < inject_Z (Z.of_nat (length qs))) as Hn.
  { destruct qs; [congruence|]. unfold Qlt. cbn. lia. }
  apply Qle_shift_div_l; [exact Hn|].
  assert (0 <= fold_right Qplus 0 qs) as Hsum.
  { clear -Hqs. induction Hqs as [|q qs Hq _ IH]; cbn [fold_right]; Lqa.lra. }
  Lqa.lra.
Qed.

Lemma float_of_nat_nonneg (n : nat) :
  exists q, float_of_nat n = Some q /\ 0 <= q.
Proof.
  eexists. split; [reflexivity|]. unfold Qle. cbn. lia.
Qed.

(** Every delay in [mttd_vals] is a non-negative number. *)
Lemma mttd_values_nonneg (date_to_idx : gmap string nat)
    (truth detected : list string) :
  Forall (fun x => exists q, x = Some q /\ 0 <= q)
    (mttd_values date_to_idx truth detected).
Proof.
  unfold mttd_values.
  assert (forall acc : list float,
            Forall (fun x => exists q, x = Some q /\ 0 <= q) acc ->
            Forall (fun x => exists q, x = Some q /\ 0 <= q)
              (foldl
                 (fun mttd_vals adate =>
                    if date_in adate detected then mttd_vals ++ [Some 0]
                    else
                      let a_idx := date_idx date_to_idx adate in
                      let future_detect_indices :=
                        filter (fun i => (a_idx < i)%nat)
                          (date_idx date_to_idx <$> detected) in
                      match future_detect_indices with
                      | [] => mttd_vals
                      | _ => mttd_vals
                             ++ [float_of_nat
                                   (list_min future_detect_indices - a_idx)]
                      end)
                 acc truth)) as Hfold.
  { induction truth as [|adate truth IH]; intros acc Hacc; [exact Hacc|].
    cbn [foldl]. apply IH.
    destruct (date_in adate detected).
    - apply Forall_app. split; [exact Hacc|].
      constructor; [|constructor]. exists 0. split; [reflexivity | Lqa.lra].
    - cbv zeta.
      destruct (filter _ (date_idx date_to_idx <$> detected)); [exact Hacc|].
      apply Forall_app. split; [exact Hacc|].
      constructor; [|constructor]. apply float_of_nat_nonneg. }
  apply Hfold. constructor.
Qed.

(** No detection, no delay recorded. *)
Lemma mttd_values_undetected (date_to_idx : gmap string nat)
    (truth : list string) :
  mttd_values date_to_idx truth [] = [].
Proof.
  unfold mttd_values.
  assert (forall acc : list float,
            foldl
              (fun mttd_vals adate =>
                 if date_in adate [] then mttd_vals ++ [Some 0]
                 else
                   let a_idx := date_idx date_to_idx adate in
                   let future_detect_indices :=
                     filter (fun i => (a_idx < i)%nat)
                       (date_idx date_to_idx <$> []) in
                   match future_detect_indices with
                   | [] => mttd_vals
                   | _ => mttd_vals
                          ++ [float_of_nat
                                (list_min future_detect_indices - a_idx)]
                   end)
              acc truth = acc) as Hfold.
  { induction truth as [|adate truth IH]; intros acc; [reflexivity|].
    cbn [foldl]. rewrite IH. unfold date_in.
    rewrite bool_decide_eq_false_2 by (apply not_elem_of_nil). reflexivity. }
  apply Hfold.
Qed.

Section SecurityFacts.

Variable corr : frame -> metric -> metric -> float.
Variable linalg_solve : list (list float) -> list float -> option (list float).
Variable format_2f : float -> string.
Variable format_1f : float -> string.

Abbreviation metrics_of df :=
  (compute_security_metrics corr linalg_solve format_2f format_1f df).

Abbreviation trust_vals_of df :=
  (score <$> snd (compute_trust_scores corr linalg_solve df)).

Abbreviation true_dates_of df :=
  (date <$> filter (fun row => existsb (fun m => isna (value row m)) METRICS) df).

Abbreviation detected_dates_of df :=
  (a_date <$> filter (fun r => is_anomaly r) (compute_anomalies format_2f format_1f df)).

Abbreviation tp_of df :=
  (length (filter (fun d => date_in d (true_dates_of df)) (detected_dates_of df))).

Abbreviation fn_of df :=
  (length (filter (fun d => negb (date_in d (detected_dates_of df)))
             (true_dates_of df))).

Lemma metrics_trust_fields (df : frame) :
  signal_integrity (metrics_of df)
  = match trust_vals_of df with [] => Some 1 | _ => np_mean (trust_vals_of df) end
  /\ attack_surface_score (metrics_of df)
     = fsub (Some 1)
         match trust_vals_of df with
         | [] => Some 1 | _ => np_mean (trust_vals_of df) end.
Proof.
  unfold compute_security_metrics.
  destruct (true_dates_of df); split; reflexivity.
Qed.

Lemma metrics_without_truth (df : frame) :
  true_dates_of df = [] ->
  anomaly_precision (metrics_of df) = Some 1
  /\ anomaly_recall (metrics_of df) = Some 1
  /\ mean_time_to_detect (metrics_of df) = Some 0.
Proof.
  intros H. unfold compute_security_metrics. rewrite H.
  repeat split; reflexivity.
Qed.

Lemma metrics_with_truth (df : frame) :
  true_dates_of df <> [] ->
  anomaly_precision (metrics_of df)
  = (if (0 <? tp_of df + (length (detected_dates_of df) - tp_of df))%nat
     then fdiv (float_of_nat (tp_of df))
            (float_of_nat (tp_of df + (length (detected_dates_of df) - tp_of df)))
     else Some 0)
  /\ anomaly_recall (metrics_of df)
     = (if (0 <? tp_of df + fn_of df)%nat
        then fdiv (float_of_nat (tp_of df)) (float_of_nat (tp_of df + fn_of df))
        else Some 0)
  /\ mean_time_to_detect (metrics_of df)
     = match mttd_values (date_index df) (true_dates_of df) (detected_dates_of df)
       with
       | [] => Some 0
       | _ => np_mean (mttd_values (date_index df) (true_dates_of df)
                         (detected_dates_of df))
       end.
Proof.
  intros H. unfold compute_security_metrics.
  destruct (true_dates_of df) eqn:E; [congruence|].
  repeat split; reflexivity.
Qed.

(** X24 (compute_security_metrics) signal integrity is a number of [0, 1] and
    the attack surface score is 1 minus it, for every series and every outcome
    of the correlation matrix and the solve. *)
Theorem security_integrity_and_surface (df : frame) :
  exists s,
    signal_integrity (metrics_of df) = Some s
    /\ attack_surface_score (metrics_of df) = Some (1 - s)
    /\ 0 <= s <= 1.
Proof.
  destruct (metrics_trust_fields df) as [Hsig Hatt].
  destruct (mean_or_default_between (trust_vals_of df) 0 1 1) as (s & Hs & Hb).
  { Lqa.lra. }
  { apply Forall_fmap, Forall_forall. intros e He.
    apply list_elem_of_In, in_entries in He. destruct He as (row & m & _ & ->).
    apply trust_entry_score_bounds. }
  exists s. rewrite Hsig, Hatt, Hs. repeat split; try reflexivity; apply Hb.
Qed.

(** X25 (compute_security_metrics) on a series without a missing value the
    precision and the recall are 1 and the mean time to detect is 0, whatever
    the detector flags. *)
Theorem security_metrics_without_missing_values (df : frame) :
  (forall r m, In r df -> isna (value r m) = false) ->
  anomaly_precision (metrics_of df) = Some 1
  /\ anomaly_recall (metrics_of df) = Some 1
  /\ mean_time_to_detect (metrics_of df) = Some 0.
Proof.
  intros Hfull. apply metrics_without_truth.
  unfold frame in *. rewrite filter_none; [reflexivity|].
  intros r Hr Hex. apply Is_true_true, existsb_exists in Hex.
  destruct Hex as (m & _ & Hm). rewrite (Hfull r m Hr) in Hm. discriminate.
Qed.

(** X26 (compute_security_metrics) for every series the precision and the
    recall are numbers of [0, 1] and the mean time to detect is a number that
    is not negative: no division by zero, no NaN. *)
Theorem security_rates_in_range (df : frame) :
  (exists p, anomaly_precision (metrics_of df) = Some p /\ 0 <= p <= 1)
  /\ (exists r, anomaly_recall (metrics_of df) = Some r /\ 0 <= r <= 1)
  /\ (exists t, mean_time_to_detect (metrics_of df) = Some t /\ 0 <= t).
Proof.
  destruct (true_dates_of df) as [|d0 ds] eqn:E.
  { destruct (metrics_without_truth df E) as (-> & -> & ->).
    repeat split; eexists; (split; [reflexivity | Lqa.lra]). }
  destruct (metrics_with_truth df) as (-> & -> & ->); [rewrite E; discriminate|].
  rewrite E. split; [|split].
  - destruct (0 <? _)%nat eqn:Hpos.
    + apply Nat.ltb_lt in Hpos. apply ratio_in_unit; lia.
    + exists 0. split; [reflexivity | Lqa.lra].
  - destruct (0 <? _)%nat eqn:Hpos.
    + apply Nat.ltb_lt in Hpos. apply ratio_in_unit; lia.
    + exists 0. split; [reflexivity | Lqa.lra].
  - pose proof (mttd_values_nonneg (date_index df) (d0 :: ds)
                  (detected_dates_of df)) as Hall.
    destruct (mttd_values _ _ _) as [|x xs] eqn:Ev.
    + exists 0. split; [reflexivity | Lqa.lra].
    + apply np_mean_nonneg; [discriminate | exact Hall].
Qed.

Lemma nothing_detected_in_first_week (df : frame) :
  (length df <= 7)%nat -> detected_dates_of df = [].
Proof.
  intros Hlen. rewrite filter_none; [reflexivity|].
  intros res Hres Hflag. apply list_elem_of_In, list_elem_of_lookup in Hres.
  destruct Hres as (d & Hd).
  assert (d < length df)%nat as Hlt.
  { apply lookup_lt_Some in Hd. unfold compute_anomalies in Hd.
    rewrite length_fmap, length_iterrows in Hd. exact Hd. }
  destruct (lookup_lt_is_Some_2 df d Hlt) as (r & Hr).
  rewrite (warmup_anomaly_result format_2f format_1f df d r Hr) in Hd by lia.
  injection Hd as <-. exact Hflag.
Qed.

(** X27 (compute_security_metrics over compute_anomalies) a series of at most
    seven rows with a missing value scores precision 0, recall 0 and detection
    time 0: the detector flags nothing during the warm-up. *)
Theorem security_metrics_of_first_week (df : frame) (r : record) (m : metric) :
  (length df <= 7)%nat ->
  In r df -> isna (value r m) = true ->
  anomaly_precision (metrics_of df) = Some 0
  /\ (exists rc, anomaly_recall (metrics_of df) = Some rc /\ rc == 0)
  /\ mean_time_to_detect (metrics_of df) = Some 0.
Proof.
  intros Hlen Hr Hm.
  assert (true_dates_of df <> []) as Htruth.
  { intros Hnil. apply fmap_nil_inv in Hnil.
    assert (r ∈ filter (fun row => existsb (fun m => isna (value row m)) METRICS) df)
      as Hin.
    { apply list_elem_of_filter. split; [|apply list_elem_of_In; exact Hr].
      apply Is_true_true, existsb_exists. exists m. split; [|exact Hm].
      apply list_elem_of_In, elem_of_METRICS. }
    rewrite Hnil in Hin. apply not_elem_of_nil in Hin. exact Hin. }
  destruct (metrics_with_truth df Htruth) as (-> & -> & ->).
  rewrite (nothing_detected_in_first_week df Hlen).
  rewrite mttd_values_undetected.
  split; [reflexivity|]. split; [|reflexivity].
  assert (forall l : list string,
            filter (fun d => negb (date_in d [])) l = l) as Hfn.
  { induction l as [|d l IH]; [reflexivity|].
    rewrite filter_cons.
    assert (date_in d [] = false) as ->
      by (apply bool_decide_eq_false_2, not_elem_of_nil).
    cbn [negb]. rewrite decide_True by exact I. rewrite IH. reflexivity. }
  rewrite Hfn. cbn [filter list_filter length Nat.add].
  destruct (true_dates_of df) as [|d0 ds]; [congruence|].
  cbn [length Nat.ltb Nat.leb]. unfold float_of_nat.
  cbn [fdiv mbind option_bind].
  destruct (Qeq_bool _ 0) eqn:Ez.
  - exfalso. apply Qeq_bool_iff in Ez. revert Ez. unfold Qeq. cbn. lia.
  - eexists. split; [reflexivity|].
    change (inject_Z (Z.of_nat 0)) with 0. unfold Qdiv. Lqa.lra.
Qed.

End SecurityFacts.

(** ** Correlations *)

Lemma METRICS_lookup_iff (k : nat) (m : metric) :
  METRICS !! k = Some m <-> k = metric_index m.
Proof.
  split.
  - intros H.
    do 6 (destruct k as [|k]; [injection H as <-; reflexivity|]).
    discriminate.
  - intros ->. destruct m; reflexivity.
Qed.

Lemma length_omap_le {A B : Type} (f : A -> option B) (l : list A) :
  (length (omap f l) <= length l)%nat.
Proof.
  induction l as [|x l IH]; [reflexivity|].
  change (length (list_omap A B f l) <= length l)%nat in IH.
  simpl. destruct (f x); simpl; lia.
Qed.

(** X28 (compute_correlations) the listed pairs: an entry is in the result
    exactly when its first metric comes before its second in METRICS, its
    correlation is the matrix cell of the pair, and that cell is not NaN. *)
Theorem correlations_listed_iff (corr : frame -> metric -> metric -> float)
    (df : frame) (e : CorrelationEntry) :
  In e (compute_correlations corr df)
  <-> (metric_index (metric_x e) < metric_index (metric_y e))%nat
      /\ correlation e = corr df (metric_x e) (metric_y e)
      /\ isna (correlation e) = false.
Proof.
  unfold compute_correlations. split.
  - intros Hin. apply in_concat in Hin as (l & Hl & He).
    apply list_elem_of_In, elem_of_lookup_imap in Hl as (i & m1 & -> & Hi).
    apply list_elem_of_In, list_elem_of_omap in He as (m2 & Hm2 & Hg).
    apply list_elem_of_lookup in Hm2 as (j & Hj). rewrite lookup_drop in Hj.
    apply METRICS_lookup_iff in Hi, Hj. cbv zeta in Hg.
    destruct (isna (corr df m1 m2)) eqn:En; [discriminate|].
    injection Hg as <-. cbn [metric_x metric_y correlation].
    split; [lia|]. split; [reflexivity | exact En].
  - intros (Hlt & Hc & Hn). apply in_concat.
    exists (omap (fun m2 =>
                    let c := corr df (metric_x e) m2 in
                    if isna c then None
                    else Some {| metric_x := metric_x e; metric_y := m2;
                                 correlation := c |})
              (drop (metric_index (metric_x e) + 1) METRICS)).
    split.
    + apply list_elem_of_In.
      apply (elem_of_lookup_imap_2
               (fun i m1 =>
                  omap (fun m2 =>
                          let c := corr df m1 m2 in
                          if isna c then None
                          else Some {| metric_x := m1; metric_y := m2;
                                       correlation := c |})
                    (drop (i + 1) METRICS))
               METRICS (metric_x e) (metric_index (metric_x e))).
      apply METRICS_lookup_iff. reflexivity.
    + apply list_elem_of_In, list_elem_of_omap. exists (metric_y e). split.
      * apply list_elem_of_lookup.
        exists (metric_index (metric_y e) - metric_index (metric_x e) - 1)%nat.
        rewrite lookup_drop. apply METRICS_lookup_iff. lia.
      * cbv zeta. rewrite <- Hc, Hn. destruct e; reflexivity.
Qed.

(** X29 (compute_correlations) the result has at most fifteen entries. *)
Theorem correlations_at_most_fifteen
    (corr : frame -> metric -> metric -> float) (df : frame) :
  (length (compute_correlations corr df) <= 15)%nat.
Proof.
  unfold compute_correlations, METRICS.
  cbn [imap concat drop Nat.add compose]. rewrite !length_app.
  repeat match goal with
         | |- context [length (omap ?f ?l)] =>
             let H := fresh "H" in
             pose proof (length_omap_le f l) as H;
             cbn [length] in H;
             generalize dependent (length (omap f l)); intros
         end.
  cbn [length]. lia.
Qed.

(** ** The date index of the security metrics *)

Lemma date_index_snoc (df : frame) (r : record) :
  date_index (df ++ [r]) = <[date r := length df]> (date_index df).
Proof.
  unfold date_index. unfold frame in *. rewrite imap_app, foldl_app.
  cbn [imap foldl fst snd]. rewrite Nat.add_0_r. reflexivity.
Qed.

(** [date_to_idx] maps the date of every row to the last row that carries
    it. *)
Lemma date_index_lookup (df : frame) (r : record) :
  In r df ->
  exists i r',
    date_index df !! date r = Some i
    /\ df !! i = Some r' /\ date r' = date r
    /\ forall j r'', df !! j = Some r'' -> date r'' = date r -> (j <= i)%nat.
Proof.
  revert r. induction df as [|x df IH] using rev_ind; intros r Hr; [destruct Hr|].
  rewrite date_index_snoc.
  destruct (decide (date x = date r)) as [Heq|Hne].
  - exists (length df), x. rewrite Heq, lookup_insert_eq.
    split; [reflexivity|]. split; [|split; [reflexivity|]].
    + unfold frame in *. rewrite lookup_app_r by lia.
      rewrite Nat.sub_diag. reflexivity.
    + intros j r'' Hj _. apply lookup_lt_Some in Hj.
      unfold frame in *. rewrite length_app in Hj. cbn [length] in Hj. lia.
  - apply in_app_or in Hr. destruct Hr as [Hr|[->|[]]]; [|congruence].
    destruct (IH r Hr) as (i & r' & Hi & Hr' & Hd & Hlast).
    exists i, r'. rewrite lookup_insert_ne by exact Hne.
    split; [exact Hi|]. split; [|split; [exact Hd|]].
    + unfold frame in *. rewrite lookup_app_l; [exact Hr'|].
      apply lookup_lt_Some in Hr'. exact Hr'.
    + intros j r'' Hj Hdj.
      destruct (decide (j < length df)%nat) as [Hlt|Hge].
      * unfold frame in *. rewrite lookup_app_l in Hj by exact Hlt.
        apply (Hlast j r'' Hj Hdj).
      * unfold frame in *. rewrite lookup_app_r in Hj by lia.
        destruct (j - length df)%nat; [|destruct n; discriminate].
        injection Hj as <-. congruence.
Qed.

Section DateLookups.

Variable format_2f : float -> string.
Variable format_1f : float -> string.

(** X30 (compute_security_metrics) every date looked up in [date_to_idx], a
    ground-truth date or a detected date, is a key of the dictionary, and its
    index is a row of the series with that date: the lookups never raise
    [KeyError]. *)
Theorem security_date_lookups_succeed (df : frame) (d : string) :
  In d (date <$> filter (fun row => existsb (fun m => isna (value row m)) METRICS) df)
  \/ In d (a_date <$> filter (fun r => is_anomaly r)
                        (compute_anomalies format_2f format_1f df)) ->
  exists i r,
    date_index df !! d = Some i /\ df !! i = Some r /\ date r = d
    /\ date_idx (date_index df) d = i.
Proof.
  intros Hd.
  assert (exists r, In r df /\ date r = d) as (r & Hr & <-).
  { destruct Hd as [Hd|Hd];
      apply list_elem_of_In, list_elem_of_fmap in Hd as (x & -> & Hx);
      apply list_elem_of_filter in Hx as [_ Hx].
    - exists x. split; [apply list_elem_of_In; exact Hx | reflexivity].
    - apply list_elem_of_lookup in Hx as (k & Hk).
      assert (k < length df)%nat as Hlt.
      { apply lookup_lt_Some in Hk. unfold compute_anomalies in Hk.
        rewrite length_fmap, length_iterrows in Hk. exact Hk. }
      destruct (lookup_lt_is_Some_2 df k Hlt) as (r & Hr).
      rewrite (lookup_anomalies format_2f format_1f df k r Hr) in Hk.
      injection Hk as <-. exists r. split.
      + apply list_elem_of_In, list_elem_of_lookup. exists k. exact Hr.
      + unfold anomaly_of_row. destruct (foldl _ _ _). reflexivity. }
  destruct (date_index_lookup df r Hr) as (i & r' & Hi & Hr' & Hdate & _).
  exists i, r'. unfold date_idx. rewrite Hi.
  repeat split; [exact Hr' | exact Hdate].
Qed.

End DateLookups.

(** ** The properties on the sample series *)

Lemma distribution_shift_driver_iff_witness :
  exists e,
    snd (compute_trust_scores corr_nan solve_raises steps_series) !! 51%nat = Some e
    /\ (In driver_distribution_shift (drivers e)
        <-> 12 # 10 < Qabs ((100 - (9 # 2)) / ((14826 # 10000) * (16 # 8)))).
Proof.
  apply (distribution_shift_driver_iff corr_nan solve_raises steps_series 8
           (steps_day "2024-01-09" (Some 100)) steps 100 (9 # 2) (16 # 8));
    reflexivity.
Defined.

Lemma cross_signal_driver_threshold_witness :
  exists e,
    snd (compute_trust_scores corr_nan solve_raises steps_series) !! 51%nat = Some e
    /\ (In driver_cross_signal (drivers e)
        <-> (12 # 10) * (16 # 8) < Qabs (100 - 0)).
Proof.
  apply (cross_signal_driver_threshold corr_nan solve_raises steps_series 8
           (steps_day "2024-01-09" (Some 100)) steps 100 0 (16 # 8));
    reflexivity.
Defined.

Lemma nan_prediction_zeroes_trust_witness :
  exists e q,
    snd (compute_trust_scores corr_nan solve_echo fed_user) !! 0%nat = Some e
    /\ score e = Some q /\ q == 0
    /\ In driver_cross_signal (drivers e).
Proof.
  apply (nan_prediction_zeroes_trust corr_nan solve_echo fed_user 0
           {| user_id := "u1"; date := "2024-01-01";
              value := fun m => match m with
                                | sleep_hours => Some 3 | resting_hr => Some 4
                                | _ => nan end |}
           sleep_hours 3); reflexivity.
Defined.

Lemma drivers_explain_low_scores_witness :
  exists q,
    score {| t_metric := steps; t_date := "2024-01-01";
             score := Some (120 # 144); drivers := [] |} = Some q
    /\ (drivers {| t_metric := steps; t_date := "2024-01-01";
                   score := Some (120 # 144); drivers := [] |} = []
        -> 36 # 100 <= q)
    /\ (6 # 10 <= q
        -> drivers {| t_metric := steps; t_date := "2024-01-01";
                      score := Some (120 # 144); drivers := [] |} = []).
Proof.
  apply (drivers_explain_low_scores corr_nan solve_raises steps_series).
  vm_compute. do 3 right. left. reflexivity.
Defined.

Lemma warmup_trust_is_cross_signal_only_witness :
  exists e q rs,
    snd (compute_trust_scores corr_nan solve_raises steps_series) !! 3%nat = Some e
    /\ ~ In driver_distribution_shift (drivers e)
    /\ score e = Some q
    /\ res_score_of steps_series
         (fit_predictor_weights corr_nan solve_raises steps_series)
         (baseline_row steps_series 0 (steps_day "2024-01-01" (Some 1))) steps
       = Some rs
    /\ q == rs.
Proof.
  apply (warmup_trust_is_cross_signal_only corr_nan solve_raises steps_series 0
           (steps_day "2024-01-01" (Some 1)) steps 1);
    [reflexivity | lia | reflexivity].
Defined.

Lemma no_anomaly_during_warmup_witness :
  compute_anomalies (fun _ => ""%string) (fun _ => ""%string) steps_series !! 6%nat
  = Some {| a_user_id := "u1"; a_date := "2024-01-07";
            anomaly_score := Some 0; is_anomaly := false; a_drivers := [];
            narrative := "2024-01-07: Within normal variation." |}.
Proof.
  apply (no_anomaly_during_warmup (fun _ => ""%string) (fun _ => ""%string)
           steps_series 6 (steps_day "2024-01-07" (Some 7)));
    [reflexivity | lia].
Defined.

Lemma anomaly_drivers_are_large_z_witness :
  exists res,
    compute_anomalies (fun _ => ""%string) (fun _ => ""%string) steps_series !! 8%nat
      = Some res
    /\ d_metric <$> a_drivers res
       = filter (fun m =>
                   Qlt_bool 2
                     (spec_abs_z (baseline_row steps_series 8
                                    (steps_day "2024-01-09" (Some 100))) m))
           (spec_included (baseline_row steps_series 8
                             (steps_day "2024-01-09" (Some 100)))).
Proof.
  apply (anomaly_drivers_are_large_z (fun _ => ""%string) (fun _ => ""%string)
           steps_series 8 (steps_day "2024-01-09" (Some 100))).
  reflexivity.
Defined.

Lemma anomaly_flag_thresholds_witness :
  exists res,
    compute_anomalies (fun _ => ""%string) (fun _ => ""%string) steps_series !! 8%nat
      = Some res
    /\ (is_anomaly res = true ->
        exists m, In m (spec_included (baseline_row steps_series 8
                                         (steps_day "2024-01-09" (Some 100))))
                  /\ 12 # 10 <= spec_abs_z (baseline_row steps_series 8
                                              (steps_day "2024-01-09" (Some 100))) m)
    /\ (forall m, In m (spec_included (baseline_row steps_series 8
                                         (steps_day "2024-01-09" (Some 100)))) ->
          36 # 10 <= spec_abs_z (baseline_row steps_series 8
                                   (steps_day "2024-01-09" (Some 100))) m ->
          is_anomaly res = true).
Proof.
  apply (anomaly_flag_thresholds (fun _ => ""%string) (fun _ => ""%string)
           steps_series 8 (steps_day "2024-01-09" (Some 100))).
  reflexivity.
Defined.

Lemma missing_value_in_window_inflates_anomalies_witness :
  exists res,
    compute_anomalies (fun _ => ""%string) (fun _ => ""%string) steps_series_gap
      !! 10%nat = Some res
    /\ is_anomaly res = true.
Proof.
  apply (missing_value_in_window_inflates_anomalies
           (fun _ => ""%string) (fun _ => ""%string) steps_series_gap 9 9
           (steps_day "2024-01-11" (Some 6)) steps 6 5).
  - reflexivity.
  - vm_compute. lia.
  - reflexivity.
  - reflexivity.
  - reflexivity.
  - vm_compute. discriminate.
Defined.

Lemma security_metrics_without_missing_values_witness :
  anomaly_precision
    (compute_security_metrics corr_nan solve_raises
       (fun _ => ""%string) (fun _ => ""%string)
       [complete_day "2024-01-01"; complete_day "2024-01-02"]) = Some 1
  /\ anomaly_recall
       (compute_security_metrics corr_nan solve_raises
          (fun _ => ""%string) (fun _ => ""%string)
          [complete_day "2024-01-01"; complete_day "2024-01-02"]) = Some 1
  /\ mean_time_to_detect
       (compute_security_metrics corr_nan solve_raises
          (fun _ => ""%string) (fun _ => ""%string)
          [complete_day "2024-01-01"; complete_day "2024-01-02"]) = Some 0.
Proof.
  apply (security_metrics_without_missing_values corr_nan solve_raises
           (fun _ => ""%string) (fun _ => ""%string)
           [complete_day "2024-01-01"; complete_day "2024-01-02"]).
  intros r m [<-|[<-|[]]]; reflexivity.
Defined.

Lemma security_metrics_of_first_week_witness :
  anomaly_precision
    (compute_security_metrics corr_nan solve_raises
       (fun _ => ""%string) (fun _ => ""%string) (take 7 steps_series)) = Some 0
  /\ (exists rc,
        anomaly_recall
          (compute_security_metrics corr_nan solve_raises
             (fun _ => ""%string) (fun _ => ""%string) (take 7 steps_series))
        = Some rc /\ rc == 0)
  /\ mean_time_to_detect
       (compute_security_metrics corr_nan solve_raises
          (fun _ => ""%string) (fun _ => ""%string) (take 7 steps_series))
     = Some 0.
Proof.
  apply (security_metrics_of_first_week corr_nan solve_raises
           (fun _ => ""%string) (fun _ => ""%string) (take 7 steps_series)
           (steps_day "2024-01-01" (Some 1)) hrv).
  - vm_compute. lia.
  - left. reflexivity.
  - reflexivity.
Defined.

Lemma security_date_lookups_succeed_witness :
  exists i r,
    date_index steps_series !! "2024-01-10"%string = Some i
    /\ steps_series !! i = Some r /\ date r = "2024-01-10"%string
    /\ date_idx (date_index steps_series) "2024-01-10" = i.
Proof.
  apply (security_date_lookups_succeed (fun _ => ""%string) (fun _ => ""%string)
           steps_series "2024-01-10").
  left. vm_compute. do 9 right. left. reflexivity.
Defined.
